(** * ActiveGithub: the REST client, the traffic ledger and the ranking

    A shallow embedding of [lib/githubREST.py], [main/UserReposTraffic.py]
    and the paginated output of [main/GitHubRepl.py].

    - Python values that the code treats as structs (a repository, a traffic
      sample, a score tuple) are records; decoded JSON that the code handles
      generically (a page of items, an error payload) is the type [json].
    - A Python call that may raise is a [result]; code that logs, talks to
      the remote API or reads and writes [userReposTraffic.json] runs in the
      monad [M], a state monad over [world] with exceptions.  An exception
      keeps the effects that happened before it.
    - Instants ([datetime] values) are integers counting microseconds, the
      resolution of [datetime], from 1970-01-01T00:00:00; a [datetime] lies
      in the years 1 to 9999 and a [timedelta] within 999999999 days, and
      arithmetic that leaves these bounds raises [OverflowError].
    - A str is the sequence of bytes of its UTF-8 encoding; its characters
      are the code points.
    - [utils] is not among the sources.  [utils.getDatetime] is a parameter
      of the development ([getDatetime], which may raise); [utils.logPrint]
      appends one line to the log of the [world]. *)

From Stdlib Require Import ZArith Lia Ascii String.
From stdpp Require Import gmap strings list pretty sorting.

Open Scope Z_scope.

(** ** Python: exceptions and the built-ins the sources use *)

Module Py.

Inductive exn :=
  | TypeError | ValueError | KeyError | IndexError | AttributeError
  | FileNotFoundError | OverflowError.

Inductive result (A : Type) :=
  | Ok (a : A)
  | Raise (e : exn).
Arguments Ok {A} a.
Arguments Raise {A} e.

Definition rbind {A B} (r : result A) (k : A → result B) : result B :=
  match r with
  | Ok a => k a
  | Raise e => Raise e
  end.

(** [try: e except: d] with a bare [except]. *)
Definition try_except {A} (e : result A) (d : A) : A :=
  match e with
  | Ok a => a
  | Raise _ => d
  end.

Definition is_Ok {A} (r : result A) : Prop := ∃ a, r = Ok a.

(** [d[key]] on a dict. *)
Definition getitem {V} (d : gmap string V) (key : string) : result V :=
  match d !! key with
  | Some v => Ok v
  | None => Raise KeyError
  end.

(** [l[-1]] on a list. *)
Definition getitem_last {A} (l : list A) : result A :=
  match last l with
  | Some x => Ok x
  | None => Raise IndexError
  end.

(** [range(a, b)]. *)
Definition range (a b : Z) : list Z :=
  (λ i : nat, a + Z.of_nat i) <$> seq 0 (Z.to_nat (b - a)).

(** [sys.int_info.default_max_str_digits]: the most digits of an integer
    that [str] and [int] convert. *)
Definition max_str_digits : Z := 4300.

(** [str(n)] on an int of at most [max_str_digits] digits. *)
Definition str (n : Z) : string := pretty n.

Definition digit_of (c : ascii) : option Z :=
  let n := Z.of_nat (nat_of_ascii c) in
  if (48 <=? n) && (n <=? 57) then Some (n - 48) else None.

Fixpoint digits_value (s : string) (acc : Z) : option Z :=
  match s with
  | EmptyString => Some acc
  | String c s' =>
      match digit_of c with
      | Some d => digits_value s' (10 * acc + d)
      | None => None
      end
  end.

(** A str is held as the bytes of its UTF-8 encoding.  A character is a
    lead byte with the continuation bytes ([10xxxxxx]) that follow it. *)
Definition is_continuation (c : ascii) : bool :=
  let n := Z.of_nat (nat_of_ascii c) in
  (128 <=? n) && (n <? 192).

(** [s] goes on with the previous character. *)
Definition continues (s : string) : bool :=
  match s with
  | String c _ => is_continuation c
  | EmptyString => false
  end.

(** The characters of a str, in order: what iterating over it yields. *)
Fixpoint chars (s : string) : list string :=
  match s with
  | EmptyString => []
  | String c s' =>
      match continues s', chars s' with
      | true, piece :: pieces => String c piece :: pieces
      | _, pieces => String c "" :: pieces
      end
  end.

Fixpoint continuation_bits (s : string) (acc : Z) : Z :=
  match s with
  | EmptyString => acc
  | String c s' =>
      continuation_bits s' (64 * acc + Z.of_nat (nat_of_ascii c) mod 64)
  end.

(** [ord(ch)] on a character. *)
Definition code_point (ch : string) : Z :=
  match ch with
  | EmptyString => 0
  | String c rest =>
      let b := Z.of_nat (nat_of_ascii c) in
      continuation_bits rest
        (if b <? 128 then b
         else if b <? 224 then b mod 32
         else if b <? 240 then b mod 16
         else b mod 8)
  end.

(** The white space beyond ASCII ([str.isspace]), by code point. *)
Definition unicode_spaces : list Z :=
  [ 133; 160; 5760; 8192; 8193; 8194; 8195; 8196; 8197; 8198; 8199; 8200;
    8201; 8202; 8232; 8233; 8239; 8287; 12288 ].

(** The decimal digits beyond ASCII (category [Nd] of Unicode 14.0, the
    database of CPython 3.11) come in runs of ten, zero to nine; these are
    the code points of the zeros. *)
Definition unicode_zeros : list Z :=
  [ 1632; 1776; 1984; 2406; 2534; 2662; 2790; 2918; 3046; 3174; 3302; 3430;
    3558; 3664; 3792; 3872; 4160; 4240; 6112; 6160; 6470; 6608; 6784; 6800;
    6992; 7088; 7232; 7248; 42528; 43216; 43264; 43472; 43504; 43600; 44016;
    65296; 66720; 68912; 69734; 69872; 69942; 70096; 70384; 70736; 70864;
    71248; 71360; 71472; 71904; 72016; 72784; 73040; 73120; 92768; 92864;
    93008; 120782; 120792; 120802; 120812; 120822; 123200; 123632; 125264;
    130032 ].

Definition unicode_decimal (cp : Z) : option Z :=
  (λ zero, cp - zero)
  <$> find (λ zero, (zero <=? cp) && (cp <? zero + 10)) unicode_zeros.

(** How [int] reads a character of a numeral. *)
Inductive token :=
  | TSpace | TPlus | TMinus | TUnderscore | TDigit (d : Z) | TOther.

Definition token_of (ch : string) : token :=
  let cp := code_point ch in
  if (String.length ch =? 1)%nat && (cp <? 127) then
    if ((9 <=? cp) && (cp <=? 13)) || (cp =? 32) then TSpace
    else if cp =? 43 then TPlus
    else if cp =? 45 then TMinus
    else if cp =? 95 then TUnderscore
    else if (48 <=? cp) && (cp <=? 57) then TDigit (cp - 48)
    else TOther
  else if existsb (Z.eqb cp) unicode_spaces then TSpace
  else match unicode_decimal cp with
       | Some d => TDigit d
       | None => TOther
       end.

Fixpoint drop_spaces (ts : list token) : list token :=
  match ts with
  | TSpace :: ts' => drop_spaces ts'
  | _ => ts
  end.

(** The rest of a numeral that has [digits] digits so far, worth [acc]:
    digits, each of which a single underscore may precede.  The result is
    the value, the number of digits and what follows the numeral; an
    underscore that no digit follows is malformed. *)
Fixpoint numeral (ts : list token) (acc digits : Z)
  : option (Z * Z * list token) :=
  match ts with
  | TDigit d :: ts' => numeral ts' (10 * acc + d) (digits + 1)
  | TUnderscore :: ts' =>
      match ts' with
      | TDigit d :: ts'' => numeral ts'' (10 * acc + d) (digits + 1)
      | _ => None
      end
  | _ => Some (acc, digits, ts)
  end.

(** [int(s)] on a str: white space, an optional sign, decimal digits with
    single underscores between them, white space; at most [max_str_digits]
    digits. *)
Definition int (s : string) : result Z :=
  let ts := drop_spaces (token_of <$> chars s) in
  let signed :=
    match ts with
    | TMinus :: ts' => (-1, ts')
    | TPlus :: ts' => (1, ts')
    | _ => (1, ts)
    end in
  match snd signed with
  | TDigit d :: ts' =>
      match numeral ts' d 1 with
      | Some (n, digits, rest) =>
          match drop_spaces rest with
          | [] =>
              if digits <=? max_str_digits then Ok (fst signed * n)
              else Raise ValueError
          | _ => Raise ValueError
          end
      | None => Raise ValueError
      end
  | _ => Raise ValueError
  end.

(** [s.split(sep)] for a non-empty [sep]: [cur] is the piece being read and
    [skip] counts the characters of a matched separator still to be passed. *)
Fixpoint split_go (sep s cur : string) (skip : nat) : list string :=
  match s with
  | EmptyString => [cur]
  | String c s' =>
      match skip with
      | S k => split_go sep s' cur k
      | O =>
          if String.prefix sep s
          then cur :: split_go sep s' "" (String.length sep - 1)
          else split_go sep s' (cur +:+ String c "") 0
      end
  end.

Definition split (s sep : string) : list string := split_go sep s "" 0.

(** [l[i]] on a list, for an index that is not negative. *)
Definition getitem_nth {A} (l : list A) (i : nat) : result A :=
  match l !! i with
  | Some x => Ok x
  | None => Raise IndexError
  end.

(** [sub in s] on two strs. *)
Fixpoint str_contains (sub s : string) : bool :=
  String.prefix sub s ||
  match s with
  | EmptyString => false
  | String _ s' => str_contains sub s'
  end.

(** [sorted(l, key=key, reverse=reverse)] with integer keys.  The sort is
    stable; with [reverse] the list is reversed, sorted and reversed again,
    which is how the built-in keeps equal keys in their original order. *)
Fixpoint insert_by {A} (key : A → Z) (x : A) (l : list A) : list A :=
  match l with
  | [] => [x]
  | y :: l' =>
      if key x <=? key y then x :: y :: l' else y :: insert_by key x l'
  end.

Fixpoint sort_by {A} (key : A → Z) (l : list A) : list A :=
  match l with
  | [] => []
  | x :: l' => insert_by key x (sort_by key l')
  end.

Definition sorted {A} (l : list A) (key : A → Z) (reverse : bool) : list A :=
  if reverse then rev (sort_by key (rev l)) else sort_by key l.

End Py.

Export Py.

Notation "'let?' x := e 'in' k" := (rbind e (λ x, k))
  (at level 10, x name, e at level 100, k at level 200,
   format "'[v' 'let?'  x  :=  e  'in' '/' k ']'").

(** ** Decoded JSON *)

#[warnings="-register-all"]
Inductive json :=
  | JNull
  | JBool (b : bool)
  | JNum (n : Z)
  | JStr (s : string)
  | JList (items : list json)
  | JObj (fields : list (string * json)).

Definition is_JStr (key : string) (j : json) : bool :=
  match j with
  | JStr s => String.eqb s key
  | _ => false
  end.

(** [key in j]. *)
Definition json_contains (key : string) (j : json) : result bool :=
  match j with
  | JObj fields => Ok (existsb (λ kv, String.eqb (fst kv) key) fields)
  | JList items => Ok (existsb (is_JStr key) items)
  | JStr s => Ok (str_contains key s)
  | JNull | JBool _ | JNum _ => Raise TypeError
  end.

(** The elements that iterating over [j] yields. *)
Definition json_iter (j : json) : result (list json) :=
  match j with
  | JList items => Ok items
  | JObj fields => Ok ((λ kv, JStr (fst kv)) <$> fields)
  | JStr s => Ok (JStr <$> chars s)
  | JNull | JBool _ | JNum _ => Raise TypeError
  end.

(** [iterable.extend(more)]: only a list has the method. *)
Definition json_extend (iterable more : json) : result json :=
  match iterable with
  | JList items =>
      let? new := json_iter more in
      Ok (JList (items ++ new))
  | _ => Raise AttributeError
  end.

(** [j[key]] for a str [key]: only an object can be indexed by a str.  The
    fields of an object hold each key once, as a dict does. *)
Definition json_getitem (j : json) (key : string) : result json :=
  match j with
  | JObj fields =>
      match find (λ kv, String.eqb (fst kv) key) fields with
      | Some kv => Ok (snd kv)
      | None => Raise KeyError
      end
  | _ => Raise TypeError
  end.

(** ** The world: the log, the remote API and the ledger file *)

(** One stored traffic sample, [{'timestamp': ..., 'uniques': ...}]; a day of
    the traffic endpoint is read through the same two keys. *)
Record sample := Sample { timestamp : string; uniques : Z }.

(** The content of [userReposTraffic.json]: repository name, then traffic
    type, then the samples in stored order. *)
Abbreviation ledger := (gmap string (gmap string (list sample))).

(** What [utils.logPrint] is given: a str or a decoded JSON value, and the
    print type ([None] when the call leaves it to the default). *)
Inductive logtext :=
  | LText (s : string)
  | LJson (j : json).

Record logline := LogLine { text : logtext; level : option string }.

(** A [requests] response: the headers (strs), the parsed [Link] header and
    what [.json()] gives. *)
Record response := Response {
  headers : gmap string string;
  links : gmap string (gmap string string);
  decoded : result json;
}.

Record world := World {
  log : list logline;          (* lines printed so far, oldest first *)
  requests : list string;      (* URLs requested so far, oldest first *)
  file : option ledger;        (* userReposTraffic.json, None: no such file *)
}.

(** [utils], which is not among the sources: what [utils.getDatetime]
    makes of a str, and of a decoded value that is not a str.  An instant
    counts the microseconds from 1970-01-01T00:00:00. *)
Class Utils := {
  getDatetime : string → result Z;
  getDatetime_other : json → result Z;
}.

(** The remote API: the response to a GET of each URL. *)
Class Remote := { http_get : string → response }.

(** The text [time.ctime] gives for a number of seconds ([None]: for the
    current time), which depends on the local time zone. *)
Class LocalTime := { ctime_text : option Z → string }.

Definition M (A : Type) : Type := world → world * result A.

Definition ret {A} (a : A) : M A := λ w, (w, Ok a).

Definition bind {A B} (m : M A) (k : A → M B) : M B :=
  λ w, match m w with
       | (w', Ok a) => k a w'
       | (w', Raise e) => (w', Raise e)
       end.

Definition lift {A} (r : result A) : M A := λ w, (w, r).

Notation "'let*' x := m 'in' k" := (bind m (λ x, k))
  (at level 10, x name, m at level 100, k at level 200,
   format "'[v' 'let*'  x  :=  m  'in' '/' k ']'").

Notation "m ';;' k" := (bind m (λ _, k))
  (at level 100, k at level 200, right associativity,
   format "'[v' m  ';;' '/' k ']'").

(** A [for] loop that threads the value [acc] through its body. *)
Fixpoint for_each {A B} (body : B → A → M B) (xs : list A) (acc : B) : M B :=
  match xs with
  | [] => ret acc
  | x :: xs' => let* acc' := body acc x in for_each body xs' acc'
  end.

Definition logPrint (t : logtext) (lvl : option string) : M unit :=
  λ w, (World (log w ++ [LogLine t lvl]) (requests w) (file w), Ok tt).

Definition requests_get `{Remote} (url : string) : M response :=
  λ w, (World (log w) (requests w ++ [url]) (file w), Ok (http_get url)).

Definition read_file : M ledger :=
  λ w, (w, match file w with
           | Some content => Ok content
           | None => Raise FileNotFoundError
           end).

Definition write_file (content : ledger) : M unit :=
  λ w, (World (log w) (requests w) (Some content), Ok tt).

Definition file_exists : M bool :=
  λ w, (w, Ok (bool_decide (is_Some (file w)))).

(** ** lib/githubREST.py *)

Module githubREST.

(** [time.ctime(secs)]: [secs] is a number or [None]. *)
Definition time_ctime `{LocalTime} (secs : json) : result string :=
  match secs with
  | JNum n => Ok (ctime_text (Some n))
  | JNull => Ok (ctime_text None)
  | _ => Raise TypeError
  end.

(** What [getGithubApiRequest] returns: the decoded JSON, or the response
    itself when [jsonOnly] is false. *)
Inductive api_value :=
  | AJson (j : json)
  | ARequest (r : response).

Section Requests.
Context `{Remote} `{LocalTime}.

Definition getGithubApiRequest (urlExcBase : string) (jsonOnly : bool)
  : M api_value :=
  let fullUrl := "https://api.github.com/" +:+ urlExcBase in
  let* request := requests_get fullUrl in
  let* remaining :=
    lift (let? v := getitem (headers request) "X-RateLimit-Remaining" in
          int v) in
  (if remaining <? 1 then
     let* reset := lift (getitem (headers request) "X-RateLimit-Reset") in
     let* at_ := lift (time_ctime (JStr reset)) in
     logPrint (LText ("Remaining rate limit is zero. Try again at " +:+ at_))
       (Some "error")
   else ret tt);;
  let* requestJson := lift (decoded request) in
  let* has_message := lift (json_contains "message" requestJson) in
  (if has_message then
     logPrint (LText ("Some error has occurred for " +:+ fullUrl))
       (Some "error");;
     logPrint (LJson requestJson) None
   else ret tt);;
  ret (if jsonOnly then AJson requestJson else ARequest request).

(** [firstPage.json()] and [firstPage.links]: attributes of a response. *)
Definition value_json (v : api_value) : result json :=
  match v with
  | ARequest r => decoded r
  | AJson _ => Raise AttributeError
  end.

Definition value_links (v : api_value)
  : result (gmap string (gmap string string)) :=
  match v with
  | ARequest r => Ok (links r)
  | AJson _ => Raise AttributeError
  end.

(** [int(firstPage.links['last']['url'].split("&page=")[1])] *)
Definition lastPage_of (firstPage : api_value) : result Z :=
  let? ls := value_links firstPage in
  let? last_ := getitem ls "last" in
  let? url := getitem last_ "url" in
  let? page := getitem_nth (split url "&page=") 1 in
  int page.

(** The value of a page as [extend] takes it. *)
Definition value_as_json (v : api_value) : result json :=
  match v with
  | AJson j => Ok j
  | ARequest _ => Raise TypeError
  end.

(** The body of the loop over the pages (lines 79 and 80). *)
Definition extend_with_page (apiUrl : string) (iterable : json) (page : Z)
  : M json :=
  let* iterationsInstance :=
    getGithubApiRequest (apiUrl +:+ "?per_page=100&page=" +:+ str page) true in
  lift (let? more := value_as_json iterationsInstance in
        json_extend iterable more).

Definition getPaginatedGithubApiRequest (apiUrl : string) : M json :=
  let* firstPage := getGithubApiRequest (apiUrl +:+ "?per_page=100") false in
  let* iterable := lift (value_json firstPage) in
  let lastPage := try_except (lastPage_of firstPage) 1 in
  let pageLimit := 10 in
  let* lastPage :=
    if lastPage >? pageLimit then
      logPrint
        (LText ("There are over " +:+ str pageLimit
                +:+ " pages! Limiting to " +:+ str pageLimit +:+ " pages"))
        (Some "warning");;
      ret pageLimit
    else ret lastPage in
  for_each (extend_with_page apiUrl) (range 2 (lastPage + 1)) iterable.

Definition getListOfRepos (repoName context : string) : M json :=
  getPaginatedGithubApiRequest ("repos/" +:+ repoName +:+ "/" +:+ context).

Definition getListOfUserRepos (username context : string) : M json :=
  getPaginatedGithubApiRequest ("users/" +:+ username +:+ "/" +:+ context).

Definition getRepoTraffic (repoName traffic : string) : M api_value :=
  getGithubApiRequest ("repos/" +:+ repoName +:+ "/traffic/" +:+ traffic) true.

Definition getUser (username : string) : M api_value :=
  getGithubApiRequest ("users/" +:+ username) true.

Definition getRepo (repoName : string) : M api_value :=
  getGithubApiRequest ("repos/" +:+ repoName) true.


Definition getUserGists (username : string) : M json :=
  getPaginatedGithubApiRequest ("users/" +:+ username +:+ "/gists").

End Requests.

(** A repository among the alive forks that the report counts. *)
Record repo := Repo { full_name : string; pushed_at : string }.

(** [datetime.timedelta(weeks=lifespan)], in microseconds.  A [timedelta]
    holds at most 999999999 days, either way. *)
Definition timedelta_weeks (lifespan : Z) : result Z :=
  if (-999999999 <=? 7 * lifespan) && (7 * lifespan <=? 999999999)
  then Ok (lifespan * (7 * 24 * 3600 * 1000000))
  else Raise OverflowError.

(** The least and the greatest [datetime]: 0001-01-01T00:00:00 and
    9999-12-31T23:59:59.999999. *)
Definition datetime_min : Z := -62135596800000000.
Definition datetime_max : Z := 253402300799999999.

(** [moment + delta] on a [datetime] and a [timedelta]. *)
Definition datetime_add (moment delta : Z) : result Z :=
  let sum := moment + delta in
  if (datetime_min <=? sum) && (sum <=? datetime_max) then Ok sum
  else Raise OverflowError.

(** [pushedAt + datetime.timedelta(weeks=lifespan)]: the instant that lines
    34 and 51 compare the clock with. *)
Definition alive_until (pushedAt lifespan : Z) : result Z :=
  let? delta := timedelta_weeks lifespan in
  datetime_add pushedAt delta.

Section Liveness.
Context `{Utils} `{Remote} `{LocalTime}.

(** [utils.getDatetime] on a decoded value. *)
Definition getDatetime_json (j : json) : result Z :=
  match j with
  | JStr s => getDatetime s
  | _ => getDatetime_other j
  end.

(** [sourceAlive(repoData, lifespan)]; [now] is what
    [datetime.datetime.now()] returns. *)
Definition sourceAlive (now : Z) (repoData : json) (lifespan : Z)
  : result bool :=
  let? snake := json_contains "pushed_at" repoData in
  let? pushedAt :=
    if snake then json_getitem repoData "pushed_at"
    else json_getitem repoData "pushedAt" in
  let? pushed := getDatetime_json pushedAt in
  let? until := alive_until pushed lifespan in
  Ok (now <? until).

(** The loop of [getListOfAliveForks].  [now k] is what the [k]-th call of
    [datetime.datetime.now()] of the run returns: the loop reads the clock
    once per fork, and [k] counts the forks already visited. *)
Fixpoint aliveForks_loop (now : nat → Z) (k : nat) (repoData : json)
    (lifespan : Z) (enableNewer : bool) (forkedRepos aliveRepos : list json)
  : result (list json) :=
  match forkedRepos with
  | [] => Ok aliveRepos
  | forkedRepo :: rest =>
      let? pushed := json_getitem forkedRepo "pushed_at" in
      let? forkedRepoPushedAt := getDatetime_json pushed in
      let? until := alive_until forkedRepoPushedAt lifespan in
      let isAlive := now k <? until in
      let? sourcePushed := json_getitem repoData "pushed_at" in
      let? sourcePushedAt := getDatetime_json sourcePushed in
      let isNewer := sourcePushedAt <? forkedRepoPushedAt in
      aliveForks_loop now (S k) repoData lifespan enableNewer rest
        (if (isAlive && isNewer) || (isAlive && negb enableNewer)
         then aliveRepos ++ [forkedRepo]
         else aliveRepos)
  end.

(** [getListOfAliveForks(repoData, lifespan, enableNewer)]: the alive forks
    and, beside them, the forks as they were fetched.  A name that is not a
    str cannot be joined to the URL. *)
Definition getListOfAliveForks (now : nat → Z) (repoData : json)
    (lifespan : Z) (enableNewer : bool) : M (list json * json) :=
  let* fullName := lift (json_getitem repoData "full_name") in
  let* forkedRepos :=
    match fullName with
    | JStr repoName => getListOfRepos repoName "forks"
    | _ => lift (Raise TypeError)
    end in
  let* items := lift (json_iter forkedRepos) in
  let* aliveRepos :=
    lift (aliveForks_loop now 0 repoData lifespan enableNewer items []) in
  ret (aliveRepos, forkedRepos).

End Liveness.

(** The text that ["{}".format(v)] gives for a decoded value that is not a
    str ([None], a number, a list, ...); a str is formatted as itself. *)
Class Format := { format_other : json → string }.

Definition format `{Format} (v : json) : string :=
  match v with
  | JStr s => s
  | _ => format_other v
  end.

(** The truth value of a decoded value. *)
Definition truthy (v : json) : bool :=
  match v with
  | JNull => false
  | JBool b => b
  | JNum n => negb (n =? 0)
  | JStr s => negb (String.eqb s "")
  | JList items => match items with [] => false | _ => true end
  | JObj fields => match fields with [] => false | _ => true end
  end.

Definition archived_mark : string :=
  "[" +:+ String (ascii_of_nat 27) "[91mArchived"
      +:+ String (ascii_of_nat 27) "[00m] ".

Section Printing.
Context `{Format}.

(** [repo[key] if key in repo else placeholder] *)
Definition field_or (repo : json) (key placeholder : string) : result json :=
  let? present := json_contains key repo in
  if present then json_getitem repo key else Ok (JStr placeholder).

(** [printRepo(repo)] *)
Definition printRepo (repo : json) : M unit :=
  let* has_archived := lift (json_contains "archived" repo) in
  let* has_both :=
    if has_archived then lift (json_contains "name" repo) else ret false in
  if has_both then
    let* archived := lift (json_getitem repo "archived") in
    let* name := lift (json_getitem repo "name") in
    let* title :=
      lift (match name with
            | JStr n => Ok ((if truthy archived then archived_mark else "") +:+ n)
            | _ => Raise TypeError
            end) in
    logPrint (LText title) (Some "bold");;
    let* description := lift (field_or repo "description" "[description]") in
    let* language := lift (field_or repo "language" "[unknown]") in
    (* the two lookups raise [KeyError] or [TypeError] only, which are the
       exceptions that the [except] clause names *)
    let licenseName :=
      try_except (let? license := json_getitem repo "license" in
                  json_getitem license "name")
        (JStr "[unknown]") in
    let* updated := lift (field_or repo "updated_at" "[unknown]") in
    logPrint
      (LText (format description +:+ String (ascii_of_nat 10) "Language: "
              +:+ format language +:+ ", License: " +:+ format licenseName
              +:+ ", Last Updated: " +:+ format updated))
      None;;
    let* html_url := lift (json_getitem repo "html_url") in
    logPrint (LText ("Link: " +:+ format html_url)) None
  else ret tt.

End Printing.

End githubREST.

(** ** main/UserReposTraffic.py *)

Module UserReposTraffic.

Definition sentinel : sample := Sample "2000-01-01T00:00:00Z" 0.

Section Ledger.
Context `{Utils}.

(** One turn of the loop over [days] (lines 31 to 34). *)
Definition merge_day (userRepoTrafficType : list sample) (day : sample)
  : result (list sample) :=
  let? newest := getitem_last userRepoTrafficType in
  let? stored_at := getDatetime (timestamp newest) in
  let? day_at := getDatetime (timestamp day) in
  Ok (if stored_at <? day_at
      then userRepoTrafficType ++ [Sample (timestamp day) (uniques day)]
      else userRepoTrafficType).

Fixpoint merge_days (userRepoTrafficType days : list sample)
  : result (list sample) :=
  match days with
  | [] => Ok userRepoTrafficType
  | day :: rest =>
      let? appended := merge_day userRepoTrafficType day in
      merge_days appended rest
  end.

(** [mergeDataWithJson(repoName, trafficType)].  [days] is the value of
    [getRepoTraffic(repoName, trafficType)[trafficType]] (line 30), or the
    exception that evaluating it raises. *)
Definition mergeDataWithJson (days : result (list sample))
    (repoName trafficType : string) : M unit :=
  let* present := file_exists in
  let* userReposTraffic :=
    if present then read_file
    else
      logPrint (LText "userReposTraffic.json does not exist - creating")
        (Some "warning");;
      ret (∅ : ledger) in
  let* userReposTraffic :=
    match userReposTraffic !! repoName with
    | Some _ => ret userReposTraffic
    | None =>
        logPrint (LText (repoName +:+ " does not exist - creating"))
          (Some "warning");;
        ret (<[repoName := ∅]> userReposTraffic)
    end in
  let* repoTraffic := lift (getitem userReposTraffic repoName) in
  let* userRepoTrafficType :=
    match repoTraffic !! trafficType with
    | Some stored => ret stored
    | None =>
        logPrint (LText (trafficType +:+ " does not exist - creating"))
          (Some "warning");;
        ret [sentinel]
    end in
  let* days := lift days in
  let* userRepoTrafficType := lift (merge_days userRepoTrafficType days) in
  write_file
    (<[repoName := <[trafficType := userRepoTrafficType]> repoTraffic]>
       userReposTraffic).

End Ledger.

Definition getJsonData (repoName trafficType : string) : M Z :=
  let* userReposTraffic := read_file in
  let* userRepoTraffic :=
    lift (let? repoTraffic := getitem userReposTraffic repoName in
          getitem repoTraffic trafficType) in
  ret (fold_left (λ returnData trafficEntity,
                    returnData + uniques trafficEntity)
         userRepoTraffic 0).

(** A repository as the report reads it: [repoData["name"]] and
    [repoData["isArchived"]]. *)
Record sourceRepo := SourceRepo { name : string; isArchived : bool }.

(** A tuple of [sortRepos]: the score, the label and the four counts. *)
Record scoreEntry := ScoreEntry {
  entry_score : Z;
  entry_label : string;
  entry_forks : Z;
  entry_stars : Z;
  entry_clones : Z;
  entry_views : Z;
}.

(** Line 70. *)
Definition score {A} (aliveForks : list A) (stars clones views : Z) : Z :=
  Z.of_nat (length aliveForks) * 8 + stars * 4 + clones * 2 + views.

Definition archived_tag : string :=
  "[" +:+ String (ascii_of_nat 27) "[91mArchived"
      +:+ String (ascii_of_nat 27) "[00m] ".

(** What the report is given for one repository: [repoData], the alive forks
    and the star count that [githubGraph] returns, and the days of the two
    traffic requests. *)
Record repoInput := RepoInput {
  in_repoData : sourceRepo;
  in_aliveForks : list githubREST.repo;
  in_stars : Z;
  in_clones_days : result (list sample);
  in_views_days : result (list sample);
}.

Definition getKey (item : scoreEntry) : Z := entry_score item.

Section Report.
Context `{Utils}.

(** The body of the loop over [sourceRepos] (lines 53 to 73). *)
Definition scoreRepo (username : string) (sortRepos : list scoreEntry)
    (i : repoInput) : M (list scoreEntry) :=
  let repositoryShortName := name (in_repoData i) in
  let repositoryName := username +:+ "/" +:+ repositoryShortName in
  let aliveForks := in_aliveForks i in
  let stars := in_stars i in
  mergeDataWithJson (in_clones_days i) repositoryName "clones";;
  let* clones := getJsonData repositoryName "clones" in
  mergeDataWithJson (in_views_days i) repositoryName "views";;
  let* views := getJsonData repositoryName "views" in
  let score := score aliveForks stars clones views in
  ret (sortRepos ++
       [ScoreEntry score
          ((if isArchived (in_repoData i) then archived_tag else "")
           +:+ repositoryName)
          (Z.of_nat (length aliveForks)) stars clones views]).

(** Line 79. *)
Definition sortedRepos (sortRepos : list scoreEntry) : list scoreEntry :=
  sorted sortRepos getKey true.

(** ["{}".format(n)] on an int: CPython converts an integer of at most
    4300 digits to text. *)
Definition format_int (n : Z) : result string :=
  if Z.abs n <? 10 ^ max_str_digits then Ok (str n) else Raise ValueError.

(** The text of line 82 for one tuple. *)
Definition report_line (repoData : scoreEntry) : result logtext :=
  let? score_ := format_int (entry_score repoData) in
  let? forks := format_int (entry_forks repoData) in
  let? stars := format_int (entry_stars repoData) in
  let? clones := format_int (entry_clones repoData) in
  let? views := format_int (entry_views repoData) in
  Ok (LText (entry_label repoData +:+ ": score=" +:+ score_
             +:+ " (" +:+ forks +:+ ":" +:+ stars
             +:+ ":" +:+ clones +:+ ":" +:+ views +:+ ")")).

End Report.

(** The script from line 79 on: the tuples are sorted and printed. *)
Definition report (sortRepos : list scoreEntry) : M unit :=
  for_each (λ _ repoData,
              let* line := lift (report_line repoData) in
              logPrint line (Some "info"))
    (sortedRepos sortRepos) tt.

End UserReposTraffic.

(** ** main/GitHubRepl.py *)

Module GitHubRepl.

(** What the terminal sees of a paginated list: a call of [printFunc] on an
    item, or a prompt that waits for the reader. *)
Inductive event (A : Type) :=
  | Called (x : A)
  | Prompted (text : string).
Arguments Called {A} x.
Arguments Prompted {A} text.

(** How [paginatedList] ends: it returns, [printFunc] raised, or the
    division by [perPage] raised [ZeroDivisionError]. *)
Inductive outcome :=
  | Returned
  | Failed (e : exn)
  | ZeroDivisionError.

(** ["Page {} of {} (Next)>".format(page, totalPages)] *)
Definition prompt_text (page totalPages : Z) : string :=
  "Page " +:+ str page +:+ " of " +:+ str totalPages +:+ " (Next)>".

(** The loop over [enumerate(iterable)], from the item at [index] on.  The
    reader answers every prompt. *)
Fixpoint paginated_loop {A} (perPage totalPages maxpages : Z)
    (printFunc : A → result unit) (index : Z) (rest : list A)
  : list (event A) * outcome :=
  match rest with
  | [] => ([], Returned)
  | iteration :: rest' =>
      let page := index / perPage in
      if negb (maxpages =? 0) && (maxpages <=? page) then ([], Returned)
      else
        let prompt :=
          if (0 <? index) && (index mod perPage =? 0)
          then [Prompted (prompt_text (index / perPage) totalPages)]
          else [] in
        match printFunc iteration with
        | Ok _ =>
            let (events, end_) :=
              paginated_loop perPage totalPages maxpages printFunc
                (index + 1) rest' in
            (prompt ++ Called iteration :: events, end_)
        | Raise e => (prompt ++ [Called iteration], Failed e)
        end
  end.

(** [paginatedList(iterable, perPage, printFunc, maxpages)] *)
Definition paginatedList {A} (iterable : list A) (perPage : Z)
    (printFunc : A → result unit) (maxpages : Z)
  : list (event A) * outcome :=
  if perPage =? 0 then ([], ZeroDivisionError)
  else
    let totalPages := Z.of_nat (length iterable) / perPage + 1 in
    paginated_loop perPage totalPages maxpages printFunc 0 iterable.

(** [printMarkdown(raw, maxpages)].  [mdv] is the renderer [mdv.main] with
    the theme of the call, or [None] when the module is not installed; then
    the list that is paginated is the str [raw] itself, whose items are its
    characters. *)
Definition printMarkdown (mdv : option (string → string)) (raw : string)
    (maxpages : Z) : list (event string) * outcome :=
  let md :=
    match mdv with
    | Some render => split (render raw) (String (ascii_of_nat 10) "")
    | None => chars raw
    end in
  paginatedList md 30 (λ _, Ok tt) maxpages.

End GitHubRepl.

(** ** A stand-in for [utils.getDatetime] *)

Module Iso.

Definition is_leap (y : Z) : bool :=
  ((y mod 4 =? 0) && negb (y mod 100 =? 0)) || (y mod 400 =? 0).

Definition days_in_month (y m : Z) : Z :=
  if m =? 2 then (if is_leap y then 29 else 28)
  else if (m =? 4) || (m =? 6) || (m =? 9) || (m =? 11) then 30
  else 31.

(** Days from 1970-01-01 to the civil date [y]-[m]-[d]. *)
Definition days_from_civil (y m d : Z) : Z :=
  let y' := if m <=? 2 then y - 1 else y in
  let era := y' / 400 in
  let yoe := y' - era * 400 in
  let doy := (153 * (if 2 <? m then m - 3 else m + 9) + 2) / 5 + d - 1 in
  let doe := yoe * 365 + yoe / 4 - yoe / 100 + doy in
  era * 146097 + doe - 719468.

Definition field (s : string) (start len : nat) : option Z :=
  digits_value (String.substring start len s) 0.

Definition mark (s : string) (at_ : nat) (c : string) : bool :=
  String.eqb (String.substring at_ 1 s) c.

(** Modelled from the spec: [utils.getDatetime], the Time/Date Helper that
    "parses platform timestamps into comparable instants"; [utils] is not
    among the sources.  This model reads the platform's format
    [YYYY-MM-DDThh:mm:ssZ] (the format of the sentinel on line 26) and
    raises [ValueError] on anything else.  It only serves as the instance
    at which theorems are evaluated on concrete ledgers. *)
Definition getDatetime_iso (s : string) : result Z :=
  let shape :=
    (String.length s =? 20)%nat && mark s 4 "-" && mark s 7 "-"
    && mark s 10 "T" && mark s 13 ":" && mark s 16 ":" && mark s 19 "Z" in
  match field s 0 4, field s 5 2, field s 8 2,
        field s 11 2, field s 14 2, field s 17 2 with
  | Some y, Some m, Some d, Some hh, Some mm, Some ss =>
      if shape && (1 <=? y) && (1 <=? m) && (m <=? 12) && (1 <=? d)
         && (d <=? days_in_month y m) && (hh <=? 23) && (mm <=? 59)
         && (ss <=? 59)
      then Ok ((((days_from_civil y m d * 24 + hh) * 60 + mm) * 60 + ss)
               * 1000000)
      else Raise ValueError
  | _, _, _, _, _, _ => Raise ValueError
  end.

(** A value that is not a str is refused. *)
Definition utils_iso : Utils :=
  {| getDatetime := getDatetime_iso;
     getDatetime_other := λ _, Raise TypeError |}.

End Iso.

(** ** Vocabulary of the statements *)

(** The elements of [l] at the positions that [keep] marks, in order. *)
Fixpoint select {A} (keep : list bool) (l : list A) : list A :=
  match keep, l with
  | b :: keep', x :: l' => if b then x :: select keep' l' else select keep' l'
  | _, _ => []
  end.

(** Microseconds in a day. *)
Definition day_us : Z := 24 * 3600 * 1000000.

(** The inclusion predicate of the liveness filter in the words of the
    specification, on instants: alive is
    [lastPushedAt + lifespanWeeks*7days > now]. *)
Definition included (now forkPushedAt sourcePushedAt lifespanWeeks : Z)
    (requireNewerThanSource : bool) : Prop :=
  let alive := now < forkPushedAt + lifespanWeeks * 7 * day_us in
  let newer := sourcePushedAt < forkPushedAt in
  (alive ∧ newer) ∨ (alive ∧ requireNewerThanSource = false).

(** The window of a push fits the types of [datetime]: the lifespan can be
    held by a [timedelta] and the end of the window by a [datetime]. *)
Definition window_fits (pushedAt lifespanWeeks : Z) : Prop :=
  -999999999 ≤ 7 * lifespanWeeks ≤ 999999999
  ∧ githubREST.datetime_min ≤ pushedAt + lifespanWeeks * 7 * day_us
    ≤ githubREST.datetime_max.

Global Instance window_fits_dec pushedAt lifespanWeeks :
  Decision (window_fits pushedAt lifespanWeeks).
Proof. unfold window_fits. apply _. Defined.

(** The instant of the last push of a repository, as lines 50 and 52 read
    it. *)
Definition pushedAt_of `{Utils} (repository : json) : result Z :=
  let? pushed := json_getitem repository "pushed_at" in
  githubREST.getDatetime_json pushed.

(** The sequence stored for a repository and a traffic type in the ledger
    file, if there is one. *)
Definition stored (f : option ledger) (repoName trafficType : string)
  : option (list sample) :=
  L ← f; repoTraffic ← L !! repoName; repoTraffic !! trafficType.

(** The sum of [.uniques] over a sequence of samples. *)
Definition total_uniques (s : list sample) : Z :=
  foldr (λ e acc, uniques e + acc) 0 s.

Section Order.
Context `{Utils}.

(** [a] carries a strictly earlier instant than [b]. *)
Definition before (a b : sample) : Prop :=
  ∃ x y, getDatetime (timestamp a) = Ok x
         ∧ getDatetime (timestamp b) = Ok y ∧ x < y.

(** Strictly ascending by instant. *)
Definition ascending (s : list sample) : Prop := StronglySorted before s.

Definition ledger_ascending (f : option ledger) : Prop :=
  ∀ repoName trafficType s,
    stored f repoName trafficType = Some s → ascending s.

(** The merge in the words of the specification: the fresh samples are
    taken in order, and one is appended if and only if its instant is
    strictly greater than that of the sample stored last at that moment. *)
Inductive merged : list sample → list sample → list sample → Prop :=
  | merged_done s : merged s [] s
  | merged_append s newest day rest out :
      last s = Some newest → before newest day →
      merged (s ++ [day]) rest out → merged s (day :: rest) out
  | merged_skip s newest day rest out x y :
      last s = Some newest →
      getDatetime (timestamp newest) = Ok x →
      getDatetime (timestamp day) = Ok y → ¬ x < y →
      merged s rest out → merged s (day :: rest) out.

End Order.

(** The sequence that a merge starts from: the stored one, or the sentinel
    alone when there is none. *)
Definition base_of (f : option ledger) (repoName trafficType : string)
  : list sample :=
  default [UserReposTraffic.sentinel] (stored f repoName trafficType).

Section MergedFile.
Context `{Utils}.

(** The file after a merge, as a function of the file before. *)
Definition merged_file (f : option ledger) (days : result (list sample))
    (repoName trafficType : string) : option ledger :=
  match days with
  | Ok ds =>
      match UserReposTraffic.merge_days (base_of f repoName trafficType) ds with
      | Ok out =>
          Some (<[repoName := <[trafficType := out]>
                                (default ∅ (default ∅ f !! repoName))]>
                  (default ∅ f))
      | Raise _ => f
      end
  | Raise _ => f
  end.

Definition merge_outcome (f : option ledger) (days : result (list sample))
    (repoName trafficType : string) : result unit :=
  let? ds := days in
  let? _ := UserReposTraffic.merge_days (base_of f repoName trafficType) ds in
  Ok tt.

End MergedFile.

(** One merge of a run: the days fetched, the repository and the traffic
    type. *)
Record merge_call := MergeCall {
  call_days : result (list sample);
  call_repo : string;
  call_type : string;
}.

(** The world after the merges [calls], one after the other; a merge that
    raises ends its run and leaves the file as it was. *)
Definition run_merges `{Utils} (calls : list merge_call) (w : world) : world :=
  fold_left
    (λ w c,
       fst (UserReposTraffic.mergeDataWithJson
              (call_days c) (call_repo c) (call_type c) w))
    calls w.

(** The URLs of the pages of a listing: the first request, and the request
    for page [p] from the second page on. *)
Definition first_url (apiUrl : string) : string :=
  "https://api.github.com/" +:+ (apiUrl +:+ "?per_page=100").

Definition next_url (apiUrl : string) (p : Z) : string :=
  "https://api.github.com/" +:+ (apiUrl +:+ "?per_page=100&page=" +:+ str p).

Definition page_url (apiUrl : string) (p : Z) : string :=
  if p =? 1 then first_url apiUrl else next_url apiUrl p.

(** A response that leaves rate limit to spare and decodes to the list
    [items]. *)
Definition page_ok (r : response) (items : list json) : Prop :=
  (∃ remaining n,
     headers r !! "X-RateLimit-Remaining" = Some remaining
     ∧ int remaining = Ok n ∧ 1 ≤ n)
  ∧ decoded r = Ok (JList items).

(** The last-page index that the first response reports, as the fetcher
    reads it: 1 when the [Link] header has none that can be read. *)
Definition reported_lastPage (first : response) : Z :=
  try_except (githubREST.lastPage_of (githubREST.ARequest first)) 1.

(** The pages requested for a reported last-page index: the first, then 2
    up to the index or to 10, whichever is less. *)
Definition pages_fetched (lastPage : Z) : list Z :=
  1 :: range 2 (Z.min lastPage 10 + 1).

Definition is_warning (l : logline) : Prop := level l = Some "warning".

Global Instance is_warning_dec l : Decision (is_warning l).
Proof. unfold is_warning. apply _. Defined.

Definition truncation_warning : logline :=
  LogLine (LText "There are over 10 pages! Limiting to 10 pages")
    (Some "warning").



(** The timestamps of [s] are well-formed. *)
Definition well_stamped `{Utils} (s : list sample) : Prop :=
  Forall (λ a, is_Ok (getDatetime (timestamp a))) s.

(** A ledger as the merges write it: every stored sequence begins with the
    sentinel sample and holds well-formed timestamps. *)
Definition ledger_written `{Utils} (f : option ledger) : Prop :=
  ∀ repoName trafficType s,
    stored f repoName trafficType = Some s →
    head s = Some UserReposTraffic.sentinel ∧ well_stamped s.

(** The sample [d] carries a well-formed timestamp later than the instant
    [x]. *)
Definition instant_after `{Utils} (x : Z) (d : sample) : Prop :=
  match getDatetime (timestamp d) with
  | Ok y => x < y
  | Raise _ => False
  end.

Global Instance instant_after_dec `{Utils} x d : Decision (instant_after x d).
Proof. unfold instant_after. destruct (getDatetime (timestamp d)); apply _. Defined.

(** A response that leaves rate limit to spare. *)
Definition rate_left (r : response) : Prop :=
  ∃ remaining n,
    headers r !! "X-RateLimit-Remaining" = Some remaining
    ∧ int remaining = Ok n ∧ 1 ≤ n.

(** A response that leaves rate limit to spare and decodes to [j]. *)
Definition answers (r : response) (j : json) : Prop :=
  rate_left r ∧ decoded r = Ok j.

(** The two lines logged for an answer that holds ["message"]. *)
Definition error_lines (fullUrl : string) (j : json) : list logline :=
  [LogLine (LText ("Some error has occurred for " +:+ fullUrl)) (Some "error");
   LogLine (LJson j) None].



(** The items on which [printFunc] was called, and the prompts, in order. *)
Definition calls_of {A} (events : list (GitHubRepl.event A)) : list A :=
  omap (λ e, match e with
             | GitHubRepl.Called x => Some x
             | GitHubRepl.Prompted _ => None
             end) events.

Definition prompts_of {A} (events : list (GitHubRepl.event A)) : list string :=
  omap (λ e, match e with
             | GitHubRepl.Called _ => None
             | GitHubRepl.Prompted text => Some text
             end) events.

Definition is_info (l : logline) : Prop := level l = Some "info".

(** An integer that [str] and [format] convert to text: one of at most
    4300 digits. *)
Definition printable (n : Z) : Prop := Z.abs n < 10 ^ max_str_digits.

(** The numbers of a score tuple can be printed. *)
Definition entry_printable (e : UserReposTraffic.scoreEntry) : Prop :=
  printable (UserReposTraffic.entry_score e)
  ∧ printable (UserReposTraffic.entry_forks e)
  ∧ printable (UserReposTraffic.entry_stars e)
  ∧ printable (UserReposTraffic.entry_clones e)
  ∧ printable (UserReposTraffic.entry_views e).

Global Instance is_info_dec l : Decision (is_info l).
Proof. unfold is_info. apply _. Defined.

(** ** Remote APIs to evaluate the fetcher on *)

Module Fixtures.
Import githubREST UserReposTraffic Iso.

Definition local_time : LocalTime :=
  {| ctime_text := λ secs,
       match secs with
       | Some n => "epoch+" +:+ str n
       | None => "now"
       end |}.

(** Every URL answers with rate limit to spare, one item naming the URL,
    and a [Link] header whose last page is [lastPage]. *)
Definition listing (lastPage : Z) : Remote :=
  {| http_get := λ url,
       Response
         {[ "X-RateLimit-Remaining" := "4999";
            "X-RateLimit-Reset" := "1372700873" ]}
         {[ "last" :=
              {[ "url" :=
                   "https://api.github.com/users/octocat/repos?per_page=100&page="
                   +:+ str lastPage ]} ]}
         (Ok (JList [JStr url])) |}.

(** Every URL answers with the rate limit used up. *)
Definition exhausted : Remote :=
  {| http_get := λ url,
       Response
         {[ "X-RateLimit-Remaining" := "0";
            "X-RateLimit-Reset" := "1372700873" ]}
         ∅
         (Ok (JList [JObj [("name", JStr "hello-world")]])) |}.

Definition fresh_world : world := World [] [] None.

(** Two repositories that the report counts as alive forks. *)
Definition forks : list repo :=
  [Repo "a/source" "2024-02-01T00:00:00Z";
   Repo "b/source" "2023-06-01T00:00:00Z"].

(** The clock stands at 2024-03-01. *)
Definition clock : nat → Z := λ _, 1709251200000000.

Definition may1 : sample := Sample "2024-05-01T00:00:00Z" 3.
Definition may2 : sample := Sample "2024-05-02T00:00:00Z" 5.

(** A ledger file that holds clones of one repository up to May 1st. *)
Definition one_repo_world : world :=
  World [] []
    (Some {[ "octo/source" := {[ "clones" := [sentinel; may1] ]} ]}).

(** A ledger file in which the entry is there and holds no sample. *)
Definition empty_entry_world : world :=
  World [] [] (Some {[ "octo/source" := {[ "clones" := [] ]} ]}).

(** A ledger file whose entry ends in a timestamp that cannot be read. *)
Definition malformed_entry_world : world :=
  World [] []
    (Some {[ "octo/source" := {[ "clones" := [Sample "garbage" 1] ]} ]}).

Definition may1_noon : sample := Sample "2024-05-01T12:00:00Z" 5.

Definition report_input : repoInput :=
  RepoInput (SourceRepo "source" false) forks 10 (Ok [may1; may2]) (Ok [may1]).

Definition spare_headers : gmap string string :=
  {[ "X-RateLimit-Remaining" := "4999"; "X-RateLimit-Reset" := "1372700873" ]}.

(** A source repository and its two forks, as the REST API gives them:
    fork A was pushed after the source, fork B before it, both within 52
    weeks of the clock. *)
Definition source_json : json :=
  JObj [("full_name", JStr "octo/source");
        ("pushed_at", JStr "2024-01-01T00:00:00Z")].

Definition fork_a : json :=
  JObj [("full_name", JStr "a/source");
        ("pushed_at", JStr "2024-02-01T00:00:00Z")].

Definition fork_b : json :=
  JObj [("full_name", JStr "b/source");
        ("pushed_at", JStr "2023-06-01T00:00:00Z")].

(** Every URL answers with the two forks, on a single page. *)
Definition forks_remote : Remote :=
  {| http_get := λ url, Response spare_headers ∅ (Ok (JList [fork_a; fork_b])) |}.

(** The instant of the push of a repository, 0 when it cannot be read. *)
Definition pushed_instant (r : json) : Z :=
  try_except (@pushedAt_of utils_iso r) 0.

(** The error payload of a resource that is not there. *)
Definition not_found_fields : list (string * json) :=
  [("message", JStr "Not Found");
   ("documentation_url", JStr "https://docs.github.com/rest")].

Definition not_found_payload : json := JObj not_found_fields.


(** Every URL answers with the error payload and no [Link] header. *)
Definition not_found : Remote :=
  {| http_get := λ url, Response spare_headers ∅ (Ok not_found_payload) |}.




(** A repository as the GraphQL queries name its push time. *)
Definition graph_repo : json :=
  JObj [("name", JStr "source"); ("pushedAt", JStr "2024-01-01T00:00:00Z")].

(** A repository of the REST API, archived and without a license. *)
Definition archived_repo : list (string * json) :=
  [("name", JStr "source"); ("archived", JBool true); ("license", JNull);
   ("html_url", JStr "https://github.com/octo/source")].

Definition plain_format : Format :=
  {| format_other := λ v,
       match v with
       | JNull => "None"
       | JBool true => "True"
       | JBool false => "False"
       | JNum n => str n
       | _ => "..."
       end |}.


End Fixtures.

Example int_15 : int "15" = Ok 15.
Proof. reflexivity. Qed.

Example int_malformed : int "1x" = Raise ValueError.
Proof. reflexivity. Qed.

Example int_lenient :
  int "1_5" = Ok 15 ∧ int " +15 " = Ok 15 ∧ int "１５" = Ok 15
  ∧ int "1__5" = Raise ValueError ∧ int "- 15" = Raise ValueError.
Proof. repeat split; reflexivity. Qed.

Example int_digit_limit :
  is_Ok (int (String.concat "" (replicate 4300 "9")))
  ∧ int (String.concat "" (replicate 4301 "9")) = Raise ValueError.
Proof. split; vm_compute; [by eexists|reflexivity]. Qed.

Example chars_code_points :
  chars "café → ok" = ["c"; "a"; "f"; "é"; " "; "→"; " "; "o"; "k"].
Proof. reflexivity. Qed.

Example timedelta_weeks_bounds :
  githubREST.timedelta_weeks 142857142 = Ok 86399999481600000000
  ∧ githubREST.timedelta_weeks 142857143 = Raise OverflowError
  ∧ githubREST.datetime_add 1706745600000000 31449600000000
    = Ok 1738195200000000
  ∧ githubREST.alive_until 1706745600000000 500000 = Raise OverflowError.
Proof. repeat split; reflexivity. Qed.

Example split_last_url :
  split "https://api.github.com/users/u/repos?per_page=100&page=15" "&page="
  = ["https://api.github.com/users/u/repos?per_page=100"; "15"].
Proof. reflexivity. Qed.

Example range_pages : range 2 (4 + 1) = [2; 3; 4].
Proof. reflexivity. Qed.

Example getDatetime_iso_sentinel :
  Iso.getDatetime_iso "2000-01-01T00:00:00Z" = Ok 946684800000000.
Proof. reflexivity. Qed.

Example getDatetime_iso_malformed :
  Iso.getDatetime_iso "2000-13-01T00:00:00Z" = Raise ValueError.
Proof. reflexivity. Qed.

(** ** The built-in [sorted] *)

Section Sorted.
Context {A : Type} (key : A → Z).

Lemma insert_by_perm x l : insert_by key x l ≡ₚ x :: l.
Proof.
  induction l as [|y l IH]; simpl; [done|].
  destruct (key x <=? key y); [done|].
  rewrite IH. apply Permutation_swap.
Qed.

Lemma sort_by_perm l : sort_by key l ≡ₚ l.
Proof.
  induction l as [|x l IH]; simpl; [done|].
  by rewrite insert_by_perm, IH.
Qed.

Lemma insert_by_ascending x l :
  StronglySorted (λ a b, key a ≤ key b) l →
  StronglySorted (λ a b, key a ≤ key b) (insert_by key x l).
Proof.
  induction 1 as [|y l Hl IH Hy]; simpl.
  - repeat constructor.
  - destruct (Z.leb_spec (key x) (key y)) as [Hxy|Hxy].
    + constructor; [by constructor|].
      constructor; [done|].
      eapply Forall_impl; [exact Hy|]. simpl. intros; lia.
    + constructor; [done|].
      rewrite (insert_by_perm x l). constructor; [lia|done].
Qed.

Lemma sort_by_ascending l :
  StronglySorted (λ a b, key a ≤ key b) (sort_by key l).
Proof.
  induction l as [|x l IH]; simpl; [constructor|].
  by apply insert_by_ascending.
Qed.

(** Inserting keeps the entries of each key in their order: the new entry
    goes in front of the entries whose key is not smaller. *)
Lemma insert_by_stable s x l :
  filter (λ a, key a = s) (insert_by key x l)
  = filter (λ a, key a = s) (x :: l).
Proof.
  induction l as [|y l IH]; simpl; [done|].
  destruct (Z.leb_spec (key x) (key y)) as [Hxy|Hxy]; [done|].
  rewrite (filter_cons _ y (insert_by key x l)), IH.
  rewrite !filter_cons.
  repeat case_decide; try done; lia.
Qed.

Lemma sort_by_stable s l :
  filter (λ a, key a = s) (sort_by key l) = filter (λ a, key a = s) l.
Proof.
  induction l as [|x l IH]; simpl; [done|].
  by rewrite insert_by_stable, !filter_cons, IH.
Qed.

Lemma filter_rev_comm (P : A → Prop) `{!∀ a, Decision (P a)} l :
  filter P (rev l) = rev (filter P l).
Proof.
  induction l as [|x l IH]; simpl; [done|].
  rewrite filter_app, IH, !filter_cons, filter_nil.
  case_decide; simpl; [done|]. by rewrite app_nil_r.
Qed.

Lemma StronglySorted_rev_flip (R : relation A) l :
  StronglySorted R l → StronglySorted (flip R) (rev l).
Proof.
  induction 1 as [|x l Hl IH Hx]; simpl; [constructor|].
  apply StronglySorted_app_2; [|done|repeat constructor].
  intros a b Ha Hb. apply list_elem_of_singleton in Hb as ->.
  rewrite Forall_forall in Hx. apply Hx.
  apply list_elem_of_In. apply list_elem_of_In in Ha. by apply in_rev.
Qed.

Lemma sorted_reverse_perm l : sorted l key true ≡ₚ l.
Proof.
  unfold sorted. by rewrite <- Permutation_rev, sort_by_perm, <- Permutation_rev.
Qed.

Lemma sorted_reverse_descending l :
  StronglySorted (λ a b, key b ≤ key a) (sorted l key true).
Proof.
  unfold sorted.
  apply (StronglySorted_rev_flip (λ a b, key a ≤ key b)), sort_by_ascending.
Qed.

Lemma sorted_reverse_stable s l :
  filter (λ a, key a = s) (sorted l key true) = filter (λ a, key a = s) l.
Proof.
  unfold sorted.
  by rewrite filter_rev_comm, sort_by_stable, filter_rev_comm, rev_involutive.
Qed.

End Sorted.

(** ** Running a computation *)

Lemma bind_Ok {A B} (m : M A) (k : A → M B) w w1 a :
  m w = (w1, Ok a) → bind m k w = k a w1.
Proof. unfold bind. by intros ->. Qed.


Lemma bind_inv {A B} (m : M A) (k : A → M B) w w2 b :
  bind m k w = (w2, Ok b) →
  ∃ w1 a, m w = (w1, Ok a) ∧ k a w1 = (w2, Ok b).
Proof.
  unfold bind. destruct (m w) as [w1 [a|e]]; [eauto|done].
Qed.

(** ** The score and the ranking *)

Section Ranking.
Context `{Utils}.
Import UserReposTraffic.

(** C6.  The score of line 70 is the weighted sum
    aliveForkCount*8 + starCount*4 + clonesTotal*2 + viewsTotal*1, where
    aliveForkCount is the number of alive forks; two alive forks, 10 stars,
    4 clones and 1 view score 65; and every tuple that the loop over the
    repositories appends carries the weighted sum of its own four counts. *)
Theorem score_weighted_sum :
  (∀ (A : Type) (aliveForks : list A) (starCount clonesTotal viewsTotal : Z),
     score aliveForks starCount clonesTotal viewsTotal
     = Z.of_nat (length aliveForks) * 8 + starCount * 4 + clonesTotal * 2
       + viewsTotal * 1)
  ∧ (∀ (A : Type) (fork1 fork2 : A), score [fork1; fork2] 10 4 1 = 65)
  ∧ (∀ username sortRepos i w w' out,
       scoreRepo username sortRepos i w = (w', Ok out) →
       ∃ e, out = sortRepos ++ [e]
            ∧ entry_forks e = Z.of_nat (length (in_aliveForks i))
            ∧ entry_stars e = in_stars i
            ∧ entry_score e
              = entry_forks e * 8 + entry_stars e * 4 + entry_clones e * 2
                + entry_views e * 1).
Proof.
  split; [|split].
  - intros. unfold score. lia.
  - intros. reflexivity.
  - intros username sortRepos i w w' out Hrun. unfold scoreRepo in Hrun.
    apply bind_inv in Hrun as (w1 & [] & _ & Hrun).
    apply bind_inv in Hrun as (w2 & clones & _ & Hrun).
    apply bind_inv in Hrun as (w3 & [] & _ & Hrun).
    apply bind_inv in Hrun as (w4 & views & _ & Hrun).
    unfold ret in Hrun. injection Hrun as _ <-.
    eexists. split; [reflexivity|]. simpl. unfold score. lia.
Qed.

(** C7.  [sortedRepos] is a stable sort by score, descending: its output is
    sorted non-increasingly by score, it is a permutation of the input (the
    tuples are moved whole, so their counts are kept), and the entries of
    any one score stand in the order in which they stood in the input. *)
Theorem sortedRepos_stable_descending (sortRepos : list scoreEntry) :
  StronglySorted (λ a b, entry_score b ≤ entry_score a) (sortedRepos sortRepos)
  ∧ sortedRepos sortRepos ≡ₚ sortRepos
  ∧ ∀ s : Z,
      filter (λ e, entry_score e = s) (sortedRepos sortRepos)
      = filter (λ e, entry_score e = s) sortRepos.
Proof.
  unfold sortedRepos. split; [|split].
  - apply (sorted_reverse_descending getKey).
  - apply sorted_reverse_perm.
  - intros s. apply (sorted_reverse_stable getKey).
Qed.

End Ranking.

Example sortedRepos_ties :
  UserReposTraffic.sortedRepos
    [UserReposTraffic.ScoreEntry 5 "a" 0 1 0 1;
     UserReposTraffic.ScoreEntry 9 "b" 1 0 0 1;
     UserReposTraffic.ScoreEntry 5 "c" 0 0 2 1;
     UserReposTraffic.ScoreEntry 9 "d" 0 2 0 1]
  = [UserReposTraffic.ScoreEntry 9 "b" 1 0 0 1;
     UserReposTraffic.ScoreEntry 9 "d" 0 2 0 1;
     UserReposTraffic.ScoreEntry 5 "a" 0 1 0 1;
     UserReposTraffic.ScoreEntry 5 "c" 0 0 2 1].
Proof. reflexivity. Qed.

(** ** The liveness filter *)

Section LivenessFacts.
Context `{Utils} `{Remote} `{LocalTime}.
Import githubREST.

Lemma select_elem_of {A} (keep : list bool) (l : list A) x :
  length keep = length l →
  x ∈ select keep l ↔ ∃ i, l !! i = Some x ∧ keep !! i = Some true.
Proof.
  revert l. induction keep as [|b keep IH]; intros [|y l] Hlen;
    simplify_eq/=.
  - split; [by intros ?%elem_of_nil|by intros (i & ? & ?)].
  - specialize (IH l Hlen). split.
    + destruct b.
      * intros [->|Hx]%elem_of_cons; [by exists 0%nat|].
        apply IH in Hx as (i & ? & ?). by exists (S i).
      * intros Hx. apply IH in Hx as (i & ? & ?). by exists (S i).
    + intros ([|i] & Hl & Hk); simplify_eq/=; [left|].
      destruct b; [right|]; apply IH; eauto.
Qed.

(** The end of the window is the push time plus lifespan*7 days when the
    window fits, and there is none ([OverflowError]) when it does not. *)
Lemma alive_until_Ok pushedAt lifespan until :
  alive_until pushedAt lifespan = Ok until ↔
  window_fits pushedAt lifespan ∧ until = pushedAt + lifespan * 7 * day_us.
Proof.
  unfold alive_until, timedelta_weeks, datetime_add, window_fits,
    datetime_min, datetime_max, day_us.
  destruct (Z.leb_spec (-999999999) (7 * lifespan)),
    (Z.leb_spec (7 * lifespan) 999999999); simpl;
    try (split; [done|lia]).
  destruct (Z.leb_spec (-62135596800000000)
              (pushedAt + lifespan * (7 * 24 * 3600 * 1000000))),
    (Z.leb_spec (pushedAt + lifespan * (7 * 24 * 3600 * 1000000))
       253402300799999999); simpl;
    try (split; [done|lia]).
  split; [intros [= <-]; lia|intros [_ ->]; f_equal; lia].
Qed.

Lemma alive_until_overflows pushedAt lifespan :
  ¬ window_fits pushedAt lifespan →
  alive_until pushedAt lifespan = Raise OverflowError.
Proof.
  intros Hfits.
  destruct (alive_until pushedAt lifespan) as [until|e] eqn:Hrun.
  - apply alive_until_Ok in Hrun as [? _]. done.
  - unfold alive_until, timedelta_weeks, datetime_add in Hrun.
    repeat (case_match; simplify_eq/=); done.
Qed.

(** One turn of the loop, by the push times it reads. *)
Lemma aliveForks_loop_cons now k repoData lifespan enableNewer fork rest
    aliveRepos :
  aliveForks_loop now k repoData lifespan enableNewer (fork :: rest) aliveRepos
  = let? forkAt := pushedAt_of fork in
    let? until := alive_until forkAt lifespan in
    let? sourceAt := pushedAt_of repoData in
    aliveForks_loop now (S k) repoData lifespan enableNewer rest
      (if ((now k <? until) && (sourceAt <? forkAt))
          || ((now k <? until) && negb enableNewer)
       then aliveRepos ++ [fork]
       else aliveRepos).
Proof.
  simpl. unfold pushedAt_of.
  destruct (json_getitem fork "pushed_at") as [pushed|]; simpl; [|done].
  destruct (getDatetime_json pushed) as [forkAt|]; simpl; [|done].
  destruct (alive_until forkAt lifespan) as [until|]; simpl; [|done].
  by destruct (json_getitem repoData "pushed_at").
Qed.

Lemma aliveForks_loop_mask now (at_ : json → Z) sourceAt repoData lifespan
    enableNewer forkedRepos :
  (∀ fork, fork ∈ forkedRepos → pushedAt_of fork = Ok (at_ fork)) →
  pushedAt_of repoData = Ok sourceAt →
  (∀ fork, fork ∈ forkedRepos → window_fits (at_ fork) lifespan) →
  ∀ k aliveRepos, ∃ keep : list bool,
    length keep = length forkedRepos
    ∧ aliveForks_loop now k repoData lifespan enableNewer forkedRepos aliveRepos
      = Ok (aliveRepos ++ select keep forkedRepos)
    ∧ ∀ i fork, forkedRepos !! i = Some fork →
        (keep !! i = Some true
         ↔ included (now (k + i)%nat) (at_ fork) sourceAt lifespan enableNewer).
Proof.
  intros Hforks Hsrc Hfits.
  induction forkedRepos as [|fork rest IH]; intros k aliveRepos.
  - exists []. simpl. rewrite app_nil_r. by repeat split.
  - rewrite aliveForks_loop_cons, (Hforks fork) by left. simpl.
    rewrite (proj2 (alive_until_Ok (at_ fork) lifespan _)
               (conj (Hfits fork (list_elem_of_here _ _)) eq_refl)).
    simpl. rewrite Hsrc. simpl.
    set (until := at_ fork + lifespan * 7 * day_us).
    set (isAlive := now k <? until).
    set (isNewer := sourceAt <? at_ fork).
    set (b := isAlive && isNewer || isAlive && negb enableNewer).
    destruct (IH (λ f Hf, Hforks f (list_elem_of_further _ _ _ Hf))
                (λ f Hf, Hfits f (list_elem_of_further _ _ _ Hf)) (S k)
                (if b then aliveRepos ++ [fork] else aliveRepos))
      as (keep & Hlen & Hrun & Hkeep).
    exists (b :: keep). split; [simpl; lia|]. split.
    + rewrite Hrun. simpl. destruct b; [|done]. by rewrite <- app_assoc.
    + intros [|i] fork' Hi; simplify_eq/=.
      * rewrite Nat.add_0_r. unfold included, b, isAlive, isNewer, until.
        destruct (Z.ltb_spec (now k) (at_ fork' + lifespan * 7 * day_us)),
          (Z.ltb_spec sourceAt (at_ fork')), enableNewer; simpl;
          split; intros; try done; try (simplify_eq; fail);
          intuition (try lia; try done).
      * rewrite <- Nat.add_succ_comm. by apply Hkeep.
Qed.

Lemma aliveForks_loop_overflow now (at_ : json → Z) sourceAt repoData lifespan
    enableNewer forkedRepos :
  (∀ fork, fork ∈ forkedRepos → pushedAt_of fork = Ok (at_ fork)) →
  pushedAt_of repoData = Ok sourceAt →
  (∃ fork, fork ∈ forkedRepos ∧ ¬ window_fits (at_ fork) lifespan) →
  ∀ k aliveRepos,
    aliveForks_loop now k repoData lifespan enableNewer forkedRepos aliveRepos
    = Raise OverflowError.
Proof.
  intros Hforks Hsrc.
  induction forkedRepos as [|fork rest IH]; intros (bad & Hbad & Hover) k
    aliveRepos; [by apply elem_of_nil in Hbad|].
  rewrite aliveForks_loop_cons, (Hforks fork) by left. simpl.
  destruct (decide (window_fits (at_ fork) lifespan)) as [Hfits|Hnot].
  - rewrite (proj2 (alive_until_Ok (at_ fork) lifespan _) (conj Hfits eq_refl)).
    simpl. rewrite Hsrc. simpl.
    apply IH; [intros f Hf; apply Hforks; by right|].
    exists bad. split; [|done].
    apply elem_of_cons in Hbad as [->|Hbad]; done.
  - by rewrite (alive_until_overflows _ _ Hnot).
Qed.

(** The filter on a source whose name is a str and whose forks were
    fetched as the list [forks]. *)
Lemma getListOfAliveForks_fetched now repoData fullName forks lifespan
    enableNewer w w1 :
  json_getitem repoData "full_name" = Ok (JStr fullName) →
  getListOfRepos fullName "forks" w = (w1, Ok (JList forks)) →
  getListOfAliveForks now repoData lifespan enableNewer w
  = (w1, let? aliveRepos :=
           aliveForks_loop now 0 repoData lifespan enableNewer forks [] in
         Ok (aliveRepos, JList forks)).
Proof.
  intros Hname Hfetch. unfold getListOfAliveForks.
  unfold bind at 1, lift at 1. rewrite Hname.
  rewrite (bind_Ok _ _ _ _ _ Hfetch).
  unfold bind, lift, ret. simpl.
  by destruct (aliveForks_loop now 0 repoData lifespan enableNewer forks []).
Qed.

(** C1 (as amended).  The forks are fetched as the list [forks]; their
    push times and that of the source are well-formed.  When the window of
    every fork fits ([lifespan*7] is at most 999999999 days either way and
    push time plus lifespan*7 days lies in the years 1 to 9999),
    [getListOfAliveForks] returns, next to the forks themselves, the forks
    at the positions it keeps, in order, and it keeps the fork at position
    [k] if and only if (alive AND newer) OR (alive AND NOT enableNewer),
    where alive compares the fork's push time plus lifespan*7 days with the
    clock as read for that fork and newer compares it with the source's
    push time.  So with [enableNewer] a fork that is alive but not newer is
    left out, without it newer-ness plays no part, and under a clock that
    stands still a fork is in the result exactly when it is among the forks
    and satisfies the predicate.  When the window of some fork does not
    fit, the call raises [OverflowError] and returns nothing. *)
Theorem getListOfAliveForks_includes_iff (now : nat → Z) (at_ : json → Z)
    (sourceAt : Z) (forks : list json) (repoData : json) (fullName : string)
    (lifespan : Z) (enableNewer : bool) (w w1 : world) :
  json_getitem repoData "full_name" = Ok (JStr fullName) →
  getListOfRepos fullName "forks" w = (w1, Ok (JList forks)) →
  (∀ fork, fork ∈ forks → pushedAt_of fork = Ok (at_ fork)) →
  pushedAt_of repoData = Ok sourceAt →
  let run := getListOfAliveForks now repoData lifespan enableNewer w in
  ((∀ fork, fork ∈ forks → window_fits (at_ fork) lifespan) →
   ∃ keep : list bool,
     length keep = length forks
     ∧ run = (w1, Ok (select keep forks, JList forks))
     ∧ (∀ k fork, forks !! k = Some fork →
          (keep !! k = Some true
           ↔ included (now k) (at_ fork) sourceAt lifespan enableNewer))
     ∧ (∀ k fork, forks !! k = Some fork → enableNewer = true →
          now k < at_ fork + lifespan * 7 * day_us → ¬ sourceAt < at_ fork →
          keep !! k = Some false)
     ∧ (∀ k fork, forks !! k = Some fork → enableNewer = false →
          (keep !! k = Some true
           ↔ now k < at_ fork + lifespan * 7 * day_us))
     ∧ (∀ t, (∀ k, now k = t) →
          ∀ fork, fork ∈ select keep forks
                  ↔ fork ∈ forks
                    ∧ included t (at_ fork) sourceAt lifespan enableNewer))
  ∧ ((∃ fork, fork ∈ forks ∧ ¬ window_fits (at_ fork) lifespan) →
     run = (w1, Raise OverflowError)).
Proof.
  intros Hname Hfetch Hforks Hsrc run.
  assert (run = (w1, let? aliveRepos :=
                       aliveForks_loop now 0 repoData lifespan enableNewer
                         forks [] in
                     Ok (aliveRepos, JList forks))) as Hrun
    by by apply (getListOfAliveForks_fetched _ _ fullName).
  clearbody run. split.
  - intros Hfits.
    destruct (aliveForks_loop_mask now at_ sourceAt repoData lifespan
                enableNewer forks Hforks Hsrc Hfits 0%nat [])
      as (keep & Hlen & Hloop & Hkeep).
    exists keep. split; [done|]. split.
    { by rewrite Hrun, Hloop. }
    split; [exact Hkeep|]. split; [|split].
    + intros k fork Hk -> Halive Hnewer.
      destruct (keep !! k) as [[]|] eqn:Hb.
      * apply (Hkeep k fork Hk) in Hb. unfold included in Hb.
        destruct Hb as [[_ ?]|[_ ?]]; done.
      * done.
      * apply lookup_lt_Some in Hk. apply lookup_ge_None in Hb. lia.
    + intros k fork Hk ->. rewrite (Hkeep k fork Hk). unfold included.
      intuition.
    + intros t Hnow fork. rewrite select_elem_of by done. split.
      * intros (i & Hi & Hb). split; [by eapply list_elem_of_lookup_2|].
        rewrite <- (Hnow i). by apply (Hkeep i fork Hi).
      * intros [(i & Hi)%list_elem_of_lookup Hincl]. exists i. split; [done|].
        apply (Hkeep i fork Hi). by rewrite Hnow.
  - intros Hover.
    by rewrite Hrun, (aliveForks_loop_overflow now at_ sourceAt repoData
                        lifespan enableNewer forks Hforks Hsrc Hover).
Qed.

End LivenessFacts.

(** ** The traffic ledger *)

Section LedgerFacts.
Context `{Utils}.
Import UserReposTraffic.

Lemma sample_eta (day : sample) : Sample (timestamp day) (uniques day) = day.
Proof. by destruct day. Qed.

Lemma before_trans a b c : before a b → before b c → before a c.
Proof.
  intros (x & y & Ha & Hb & ?) (y' & z & Hb' & Hc & ?).
  exists x, z. repeat split; [done..|].
  assert (y = y') by congruence. lia.
Qed.

(** What a turn of the loop does when it does not raise. *)
Lemma merge_day_Ok s day out :
  merge_day s day = Ok out ↔
  ∃ newest x y,
    last s = Some newest
    ∧ getDatetime (timestamp newest) = Ok x
    ∧ getDatetime (timestamp day) = Ok y
    ∧ out = if x <? y then s ++ [day] else s.
Proof.
  unfold merge_day, getitem_last. rewrite sample_eta. split.
  - destruct (last s) as [newest|]; simpl; [|done].
    destruct (getDatetime (timestamp newest)) as [x|] eqn:Hx; simpl; [|done].
    destruct (getDatetime (timestamp day)) as [y|] eqn:Hy; simpl; [|done].
    intros [= <-]. by exists newest, x, y.
  - intros (newest & x & y & -> & Hx & Hy & ->). simpl.
    by rewrite Hx; simpl; rewrite Hy.
Qed.

Lemma merge_day_newer s newest day x y :
  last s = Some newest →
  getDatetime (timestamp newest) = Ok x →
  getDatetime (timestamp day) = Ok y → x < y →
  merge_day s day = Ok (s ++ [day]).
Proof.
  intros Hlast Hx Hy Hlt. apply merge_day_Ok. exists newest, x, y.
  repeat split; [done..|]. by destruct (Z.ltb_spec x y); [|lia].
Qed.

Lemma merge_day_empty day : merge_day [] day = Raise IndexError.
Proof. done. Qed.

Lemma merge_days_extends s days out :
  merge_days s days = Ok out → ∃ app, out = s ++ app ∧ app `sublist_of` days.
Proof.
  revert s. induction days as [|day rest IH]; intros s; simpl.
  - intros [= <-]. exists []. by rewrite app_nil_r.
  - destruct (merge_day s day) as [s'|] eqn:Hday; simpl; [|done].
    intros Hrest. apply IH in Hrest as (app & -> & Hsub).
    apply merge_day_Ok in Hday as (newest & x & y & _ & _ & _ & ->).
    destruct (x <? y).
    + exists (day :: app). rewrite <- app_assoc. split; [done|].
      by apply sublist_skip.
    + exists app. split; [done|]. by apply sublist_cons.
Qed.

Lemma ascending_snoc s newest day :
  ascending s → last s = Some newest → before newest day →
  ascending (s ++ [day]).
Proof.
  intros Hs Hlast Hday. apply last_Some in Hlast as [l ->].
  apply StronglySorted_app_2; [|done|repeat constructor].
  intros a b Ha Hb. apply list_elem_of_singleton in Hb as ->.
  apply elem_of_app in Ha as [Ha|Ha];
    [|by apply list_elem_of_singleton in Ha as ->].
  eapply before_trans; [|exact Hday].
  eapply StronglySorted_app_1_elem_of; [exact Hs|done|by left].
Qed.

Lemma merge_days_ascending s days out :
  ascending s → merge_days s days = Ok out → ascending out.
Proof.
  revert s. induction days as [|day rest IH]; intros s Hs; simpl.
  - by intros [= <-].
  - destruct (merge_day s day) as [s'|] eqn:Hday; simpl; [|done].
    apply merge_day_Ok in Hday as (newest & x & y & Hlast & Hx & Hy & ->).
    apply IH. destruct (Z.ltb_spec x y); [|done].
    eapply ascending_snoc; [done..|]. by exists x, y.
Qed.

(** After a merge the sample stored last is at least as late as the one
    stored last before, and as every day that was read. *)
Lemma merge_days_last s days out newest x :
  merge_days s days = Ok out →
  last s = Some newest → getDatetime (timestamp newest) = Ok x →
  ∃ newest' x',
    last out = Some newest'
    ∧ getDatetime (timestamp newest') = Ok x' ∧ x ≤ x'
    ∧ Forall (λ day, ∃ y, getDatetime (timestamp day) = Ok y ∧ y ≤ x') days.
Proof.
  revert s newest x. induction days as [|day rest IH]; intros s newest x; simpl.
  - intros [= <-] Hlast Hx. exists newest, x. by repeat split.
  - destruct (merge_day s day) as [s'|] eqn:Hday; simpl; [|done].
    apply merge_day_Ok in Hday as (n & x0 & y & Hlast0 & Hx0 & Hy & ->).
    intros Hrest Hlast Hx.
    rewrite Hlast in Hlast0. injection Hlast0 as <-.
    rewrite Hx in Hx0. injection Hx0 as <-.
    destruct (Z.ltb_spec x y).
    + destruct (IH _ day y Hrest (last_snoc _ _) Hy)
        as (n' & x' & ? & ? & ? & ?).
      exists n', x'. repeat split; [done|done|lia|].
      constructor; [by exists y|done].
    + destruct (IH _ newest x Hrest Hlast Hx) as (n' & x' & ? & ? & ? & ?).
      exists n', x'. repeat split; [done..|].
      constructor; [|done]. exists y. split; [done|lia].
Qed.

(** Days that are not later than the sample stored last change nothing. *)
Lemma merge_days_nothing_newer s days newest x :
  last s = Some newest → getDatetime (timestamp newest) = Ok x →
  Forall (λ day, ∃ y, getDatetime (timestamp day) = Ok y ∧ y ≤ x) days →
  merge_days s days = Ok s.
Proof.
  intros Hlast Hx. induction 1 as [|day rest (y & Hy & Hle) _ IH]; simpl; [done|].
  assert (merge_day s day = Ok s) as ->; [|done].
  apply merge_day_Ok. exists newest, x, y. repeat split; [done..|].
  by destruct (Z.ltb_spec x y); [lia|].
Qed.

Lemma merge_days_twice s days out :
  merge_days s days = Ok out → merge_days out days = Ok out.
Proof.
  destruct days as [|day rest]; [by intros [= <-]|].
  intros Hrun.
  assert (∃ newest x,
            last s = Some newest ∧ getDatetime (timestamp newest) = Ok x)
    as (newest & x & Hlast & Hx).
  { simpl in Hrun. destruct (merge_day s day) as [s'|] eqn:Hday; [|done].
    apply merge_day_Ok in Hday as (newest & x & y & ? & ? & _). eauto. }
  destruct (merge_days_last _ _ _ _ _ Hrun Hlast Hx)
    as (n' & x' & Hlast' & Hx' & _ & Hall).
  by eapply merge_days_nothing_newer.
Qed.

(** The loop, when every instant it needs is there, is the merge of the
    specification. *)
Lemma merge_days_merged s days :
  s ≠ [] →
  (∀ newest, last s = Some newest → is_Ok (getDatetime (timestamp newest))) →
  Forall (λ day, is_Ok (getDatetime (timestamp day))) days →
  ∃ out, merge_days s days = Ok out ∧ merged s days out.
Proof.
  intros Hne Hlast Hdays. revert s Hne Hlast.
  induction Hdays as [|day rest [y Hy] _ IH]; intros s Hne Hlast; simpl.
  - exists s. split; [done|constructor].
  - assert (is_Some (last s)) as [newest Hnewest] by by apply last_is_Some.
    destruct (Hlast newest Hnewest) as [x Hx].
    assert (merge_day s day = Ok (if x <? y then s ++ [day] else s)) as ->.
    { apply merge_day_Ok. by exists newest, x, y. }
    simpl. destruct (Z.ltb_spec x y).
    + destruct (IH (s ++ [day])) as (out & Hrun & Hout).
      { by destruct s. }
      { intros n. rewrite last_snoc. intros [= <-]. by exists y. }
      exists out. split; [done|].
      eapply merged_append; [done| |done]. by exists x, y.
    + destruct (IH s Hne Hlast) as (out & Hrun & Hout).
      exists out. split; [done|].
      eapply merged_skip; [done..|lia|done].
Qed.

Lemma mergeDataWithJson_run days repoName trafficType w :
  let run := mergeDataWithJson days repoName trafficType w in
  file (fst run) = merged_file (file w) days repoName trafficType
  ∧ snd run = merge_outcome (file w) days repoName trafficType
  ∧ requests (fst run) = requests w
  ∧ ∃ lines, log (fst run) = log w ++ lines.
Proof.
  destruct w as [lg rq f].
  unfold mergeDataWithJson, merged_file, merge_outcome, base_of, stored.
  unfold bind, file_exists, read_file, write_file, logPrint, ret, lift,
    getitem.
  destruct f as [L|]; simpl.
  - destruct (L !! repoName) as [repoTraffic|] eqn:Hrepo; simpl.
    + rewrite Hrepo. simpl.
      destruct (repoTraffic !! trafficType) as [s|]; simpl;
        (destruct days as [ds|e]; simpl;
         [destruct (merge_days _ ds); simpl|]);
        repeat split; try done;
        try (by exists []; rewrite app_nil_r); by eexists.
    + rewrite lookup_insert_eq. simpl. rewrite lookup_empty. simpl.
      destruct days as [ds|e]; simpl;
        [destruct (merge_days _ ds); simpl|];
        rewrite ?insert_insert_eq; repeat split; try done;
        rewrite <- ?app_assoc; by eexists.
  - rewrite lookup_empty. simpl. rewrite lookup_insert_eq. simpl.
    rewrite lookup_empty. simpl.
    destruct days as [ds|e]; simpl;
      [destruct (merge_days _ ds); simpl|];
      rewrite ?insert_insert_eq; repeat split; try done;
      rewrite <- ?app_assoc; by eexists.
Qed.

Lemma stored_merged_file_other f days repoName trafficType r k :
  (r, k) ≠ (repoName, trafficType) →
  stored (merged_file f days repoName trafficType) r k = stored f r k.
Proof.
  intros Hne. unfold merged_file.
  destruct days as [ds|]; [|done].
  destruct (merge_days _ ds) as [out|]; [|done].
  unfold stored. simpl.
  destruct (decide (r = repoName)) as [->|Hr].
  - rewrite lookup_insert_eq. simpl.
    rewrite lookup_insert_ne by congruence.
    destruct f as [L|]; simpl; [|done].
    by destruct (L !! repoName).
  - rewrite lookup_insert_ne by done. by destruct f.
Qed.

Lemma stored_merged_file_same f ds out repoName trafficType :
  merge_days (base_of f repoName trafficType) ds = Ok out →
  stored (merged_file f (Ok ds) repoName trafficType) repoName trafficType
  = Some out.
Proof.
  intros Hrun. unfold merged_file. rewrite Hrun.
  unfold stored. simpl. rewrite lookup_insert_eq. simpl.
  by rewrite lookup_insert_eq.
Qed.

Lemma merged_file_twice f days repoName trafficType :
  merged_file (merged_file f days repoName trafficType) days
    repoName trafficType
  = merged_file f days repoName trafficType.
Proof.
  destruct days as [ds|e]; [|done].
  destruct (merge_days (base_of f repoName trafficType) ds) as [out|e]
    eqn:Hrun.
  - pose proof (stored_merged_file_same _ _ _ _ _ Hrun) as Hstored.
    unfold merged_file at 1. unfold base_of at 1. rewrite Hstored. simpl.
    rewrite (merge_days_twice _ _ _ Hrun).
    unfold merged_file. rewrite Hrun. simpl.
    rewrite lookup_insert_eq. simpl.
    by rewrite !insert_insert_eq.
  - unfold merged_file at 2. rewrite Hrun.
    unfold merged_file. by rewrite Hrun.
Qed.

Lemma ascending_base f repoName trafficType :
  ledger_ascending f → ascending (base_of f repoName trafficType).
Proof.
  intros Hf. unfold base_of.
  destruct (stored f repoName trafficType) as [s|] eqn:Hs; simpl.
  - by eapply Hf.
  - repeat constructor.
Qed.

Lemma merged_file_ascending f days repoName trafficType :
  ledger_ascending f →
  ledger_ascending (merged_file f days repoName trafficType).
Proof.
  intros Hf r k s Hs.
  destruct (decide ((r, k) = (repoName, trafficType))) as [[= -> ->]|Hne].
  - unfold merged_file in Hs. destruct days as [ds|e]; [|by eapply Hf].
    destruct (merge_days (base_of f repoName trafficType) ds) as [out|e]
      eqn:Hrun; [|by eapply Hf].
    pose proof (stored_merged_file_same _ _ _ _ _ Hrun) as Hstored.
    unfold merged_file in Hstored. rewrite Hrun in Hstored.
    rewrite Hstored in Hs. injection Hs as <-.
    eapply merge_days_ascending; [|exact Hrun]. by apply ascending_base.
  - rewrite stored_merged_file_other in Hs by done. by eapply Hf.
Qed.

Lemma merged_file_extends f days repoName trafficType r k s :
  stored f r k = Some s →
  ∃ app, stored (merged_file f days repoName trafficType) r k = Some (s ++ app).
Proof.
  intros Hs.
  destruct (decide ((r, k) = (repoName, trafficType))) as [[= -> ->]|Hne].
  - unfold merged_file.
    destruct days as [ds|e]; [|exists []; by rewrite app_nil_r].
    destruct (merge_days (base_of f repoName trafficType) ds) as [out|e]
      eqn:Hrun; [|exists []; by rewrite app_nil_r].
    pose proof (stored_merged_file_same _ _ _ _ _ Hrun) as Hstored.
    unfold merged_file in Hstored. rewrite Hrun in Hstored.
    apply merge_days_extends in Hrun as (app & -> & _).
    exists app. rewrite Hstored. unfold base_of. by rewrite Hs.
  - exists []. rewrite app_nil_r. by rewrite stored_merged_file_other.
Qed.

Lemma StronglySorted_lookup_lt {A} (R : relation A) l i j a b :
  StronglySorted R l → l !! i = Some a → l !! j = Some b → (i < j)%nat →
  R a b.
Proof.
  intros Hl. revert i j.
  induction Hl as [|x l Hl IH Hx]; intros i j Hi Hj Hlt; [done|].
  destruct j as [|j]; [lia|]. destruct i as [|i]; simplify_eq/=.
  - rewrite Forall_forall in Hx. apply Hx. by eapply list_elem_of_lookup_2.
  - eapply IH; [done..|lia].
Qed.

Lemma fold_left_uniques s acc :
  fold_left (λ returnData trafficEntity, returnData + uniques trafficEntity)
    s acc
  = acc + total_uniques s.
Proof.
  revert acc. induction s as [|e s IH]; intros acc; simpl; [lia|].
  rewrite IH. unfold total_uniques. simpl. lia.
Qed.

Lemma getJsonData_run repoName trafficType w s :
  stored (file w) repoName trafficType = Some s →
  getJsonData repoName trafficType w = (w, Ok (total_uniques s)).
Proof.
  unfold stored, getJsonData, bind, read_file, lift, ret, getitem.
  destruct (file w) as [L|]; simpl; [|done].
  destruct (L !! repoName) as [repoTraffic|]; simpl; [|done].
  intros ->. simpl. by rewrite fold_left_uniques.
Qed.

End LedgerFacts.

Section LedgerClaims.
Context `{Utils}.
Import UserReposTraffic.

(** C2 (as amended).  When the sequence stored for the repository and the
    traffic type is missing or not empty, and the timestamps of the fresh
    days and of the sample stored last (for a missing entry: of the
    sentinel) are well-formed, the merge returns and stores the sequence
    obtained by taking the fresh days in order and appending one if and
    only if its instant is strictly greater than that of the sample stored
    last at that moment; a missing entry starts from the single sentinel
    sample [2000-01-01T00:00:00Z] with zero uniques. *)
Theorem mergeDataWithJson_appends_strictly_newer (days : list sample)
    (repoName trafficType : string) (w : world) :
  let base := base_of (file w) repoName trafficType in
  let run := mergeDataWithJson (Ok days) repoName trafficType w in
  stored (file w) repoName trafficType ≠ Some [] →
  (∀ newest, last base = Some newest →
             is_Ok (getDatetime (timestamp newest))) →
  Forall (λ day, is_Ok (getDatetime (timestamp day))) days →
  ∃ out,
    snd run = Ok tt
    ∧ stored (file (fst run)) repoName trafficType = Some out
    ∧ merged base days out
    ∧ (stored (file w) repoName trafficType = None →
       base = [Sample "2000-01-01T00:00:00Z" 0]).
Proof.
  intros base run Hne Hlast Hdays.
  assert (base ≠ []) as Hbase.
  { unfold base, base_of.
    destruct (stored (file w) repoName trafficType) as [s|]; simpl;
      [congruence|done]. }
  destruct (merge_days_merged base days Hbase Hlast Hdays)
    as (out & Hrun & Hmerged).
  destruct (mergeDataWithJson_run (Ok days) repoName trafficType w)
    as (Hfile & Hres & _).
  exists out. fold run in Hfile, Hres. split; [|split; [|split]].
  - rewrite Hres. unfold merge_outcome. simpl. fold base. by rewrite Hrun.
  - rewrite Hfile. by apply stored_merged_file_same.
  - done.
  - intros Hnone. unfold base, base_of. by rewrite Hnone.
Qed.

(** C3 (as amended).  Starting from a ledger whose stored sequences are
    strictly ascending by instant (the missing file is one), any number of
    merges leaves every stored sequence strictly ascending; every sequence
    stored before is still there, extended only at its end and only by
    samples strictly newer than all it held; and two samples of a stored
    sequence never carry the same timestamp.  The order is that of the
    instants: nothing keeps two samples of one day apart. *)
Theorem merges_keep_ascending (calls : list merge_call) (w : world) :
  ledger_ascending (file w) →
  let w' := run_merges calls w in
  ledger_ascending (file w')
  ∧ (∀ r k s, stored (file w) r k = Some s →
       ∃ app, stored (file w') r k = Some (s ++ app)
              ∧ ∀ a b, a ∈ s → b ∈ app → before a b)
  ∧ (∀ r k s i j a b,
       stored (file w') r k = Some s →
       s !! i = Some a → s !! j = Some b → (i < j)%nat →
       before a b ∧ timestamp a ≠ timestamp b).
Proof.
  intros Hw w'.
  assert (ledger_ascending (file w')
          ∧ ∀ r k s, stored (file w) r k = Some s →
              ∃ app, stored (file w') r k = Some (s ++ app)) as [Hasc Hext].
  { subst w'. revert w Hw. induction calls as [|c calls IH]; intros w Hw.
    - split; [done|]. intros r k s Hs. exists []. by rewrite app_nil_r.
    - simpl.
      destruct (mergeDataWithJson_run (call_days c) (call_repo c)
                  (call_type c) w) as (Hfile & _).
      simpl in Hfile.
      destruct (IH (fst (mergeDataWithJson (call_days c) (call_repo c)
                           (call_type c) w))) as [Hasc Hext].
      { rewrite Hfile. by apply merged_file_ascending. }
      split; [done|]. intros r k s Hs.
      destruct (merged_file_extends (file w) (call_days c) (call_repo c)
                  (call_type c) r k s Hs) as (app1 & Happ1).
      rewrite <- Hfile in Happ1.
      destruct (Hext r k _ Happ1) as (app2 & Happ2).
      exists (app1 ++ app2). by rewrite app_assoc. }
  split; [done|]. split.
  - intros r k s Hs. destruct (Hext r k s Hs) as (app & Happ).
    exists app. split; [done|]. intros a b Ha Hb.
    eapply StronglySorted_app_1_elem_of; [|done..]. by eapply Hasc.
  - intros r k s i j a b Hs Hi Hj Hlt.
    assert (before a b) as Hab.
    { eapply StronglySorted_lookup_lt; [by eapply Hasc|done..]. }
    split; [done|]. destruct Hab as (x & y & Hx & Hy & Hxy).
    intros Heq. rewrite Heq in Hx. assert (x = y) by congruence. lia.
Qed.

(** C4.  Merging the same days twice leaves the ledger file, and so the
    sequence stored for the repository and the traffic type, exactly as
    merging them once does. *)
Theorem mergeDataWithJson_idempotent (days : result (list sample))
    (repoName trafficType : string) (w : world) :
  let once := fst (mergeDataWithJson days repoName trafficType w) in
  let twice := fst (mergeDataWithJson days repoName trafficType once) in
  file twice = file once
  ∧ stored (file twice) repoName trafficType
    = stored (file once) repoName trafficType.
Proof.
  intros once twice.
  assert (file twice = file once) as Heq; [|by rewrite Heq].
  destruct (mergeDataWithJson_run days repoName trafficType w)
    as (Hfile1 & _).
  destruct (mergeDataWithJson_run days repoName trafficType once)
    as (Hfile2 & _).
  fold once in Hfile1. fold twice in Hfile2.
  rewrite Hfile2, Hfile1. apply merged_file_twice.
Qed.

(** C5.  [getJsonData] returns the sum of [.uniques] over all the samples
    stored for the repository and the traffic type; after merging
    [{t1, 3}, {t2, 5}], with t1 before t2 and both after the sentinel, into
    a missing entry it returns 8. *)
Theorem getJsonData_total_uniques :
  (∀ w repoName trafficType s,
     stored (file w) repoName trafficType = Some s →
     getJsonData repoName trafficType w = (w, Ok (total_uniques s)))
  ∧ (∀ w repoName trafficType t1 t2 x0 x1 x2,
       stored (file w) repoName trafficType = None →
       getDatetime (timestamp sentinel) = Ok x0 →
       getDatetime t1 = Ok x1 → getDatetime t2 = Ok x2 →
       x0 < x1 → x1 < x2 →
       let w' :=
         fst (mergeDataWithJson (Ok [Sample t1 3; Sample t2 5])
                repoName trafficType w) in
       getJsonData repoName trafficType w' = (w', Ok 8)).
Proof.
  split; [intros; by apply getJsonData_run|].
  intros w repoName trafficType t1 t2 x0 x1 x2 Hnone H0 H1 H2 H01 H12 w'.
  destruct (mergeDataWithJson_run (Ok [Sample t1 3; Sample t2 5])
              repoName trafficType w) as (Hfile & _).
  fold w' in Hfile.
  assert (merge_days (base_of (file w) repoName trafficType)
            [Sample t1 3; Sample t2 5]
          = Ok [sentinel; Sample t1 3; Sample t2 5]) as Hrun.
  { unfold base_of. rewrite Hnone. simpl.
    rewrite (merge_day_newer [sentinel] sentinel (Sample t1 3) x0 x1)
      by done.
    simpl.
    by rewrite (merge_day_newer [sentinel; Sample t1 3] (Sample t1 3)
                  (Sample t2 5) x1 x2). }
  rewrite (getJsonData_run repoName trafficType w'
             [sentinel; Sample t1 3; Sample t2 5]); [done|].
  rewrite Hfile. by apply stored_merged_file_same.
Qed.

(** C10.  A merge for one repository and traffic type leaves the sequence
    stored for any other repository, and for the other traffic type of the
    same repository, exactly as it was, although it writes the whole
    file. *)
Theorem mergeDataWithJson_frame (days : result (list sample))
    (repoName trafficType r k : string) (w : world) :
  (r, k) ≠ (repoName, trafficType) →
  stored (file (fst (mergeDataWithJson days repoName trafficType w))) r k
  = stored (file w) r k.
Proof.
  intros Hne.
  destruct (mergeDataWithJson_run days repoName trafficType w) as (Hfile & _).
  simpl in Hfile. rewrite Hfile. by apply stored_merged_file_other.
Qed.

End LedgerClaims.

(** ** The requests *)

Section RequestFacts.
Context `{Remote} `{LocalTime}.
Import githubREST.

(** With the rate limit used up the request raises before it logs or
    returns anything: the reset header is a str, and [time.ctime] takes a
    number. *)
Lemma getGithubApiRequest_exhausted urlExcBase jsonOnly w remaining n :
  let fullUrl := "https://api.github.com/" +:+ urlExcBase in
  headers (http_get fullUrl) !! "X-RateLimit-Remaining" = Some remaining →
  int remaining = Ok n → n < 1 →
  getGithubApiRequest urlExcBase jsonOnly w
  = (World (log w) (requests w ++ [fullUrl]) (file w),
     Raise (match headers (http_get fullUrl) !! "X-RateLimit-Reset" with
            | Some _ => TypeError
            | None => KeyError
            end)).
Proof.
  intros fullUrl Hrem Hint Hlt.
  unfold getGithubApiRequest, bind, requests_get, lift, getitem.
  fold fullUrl. simpl. rewrite Hrem. simpl. rewrite Hint.
  destruct (Z.ltb_spec n 1); [|lia].
  by destruct (headers (http_get fullUrl) !! "X-RateLimit-Reset").
Qed.

Lemma getGithubApiRequest_ok urlExcBase jsonOnly items w :
  let fullUrl := "https://api.github.com/" +:+ urlExcBase in
  page_ok (http_get fullUrl) items →
  ∃ lines,
    getGithubApiRequest urlExcBase jsonOnly w
    = (World (log w ++ lines) (requests w ++ [fullUrl]) (file w),
       Ok (if jsonOnly then AJson (JList items)
           else ARequest (http_get fullUrl)))
    ∧ filter is_warning lines = [].
Proof.
  intros fullUrl [(remaining & n & Hrem & Hint & Hn) Hdec].
  unfold getGithubApiRequest, bind, requests_get, lift, getitem.
  fold fullUrl. simpl. rewrite Hrem. simpl. rewrite Hint.
  destruct (Z.ltb_spec n 1); [lia|]. simpl. rewrite Hdec. simpl.
  destruct (existsb (is_JStr "message") items); simpl.
  - eexists. rewrite <- app_assoc. split; [reflexivity|done].
  - exists []. by rewrite app_nil_r.
Qed.

Lemma elem_of_range a b p : p ∈ range a b ↔ a ≤ p < b.
Proof.
  unfold range. rewrite list_elem_of_fmap. split.
  - intros (i & -> & Hi). apply elem_of_seq in Hi. lia.
  - intros Hp. exists (Z.to_nat (p - a)). split; [lia|].
    apply elem_of_seq. lia.
Qed.

Lemma range_cons a b : a < b → range a b = a :: range (a + 1) b.
Proof.
  intros Hlt. unfold range.
  replace (Z.to_nat (b - a)) with (S (Z.to_nat (b - (a + 1)))) by lia.
  simpl. f_equal; [lia|].
  rewrite <- fmap_S_seq, <- list_fmap_compose.
  apply list_fmap_ext. intros _ i _. simpl. lia.
Qed.

Lemma pages_loop apiUrl (items : Z → list json) pages acc w :
  (∀ p, p ∈ pages → page_ok (http_get (next_url apiUrl p)) (items p)) →
  ∃ lines,
    for_each (extend_with_page apiUrl) pages (JList acc) w
    = (World (log w ++ lines) (requests w ++ (next_url apiUrl <$> pages))
         (file w),
       Ok (JList (acc ++ concat (items <$> pages))))
    ∧ filter is_warning lines = [].
Proof.
  revert acc w. induction pages as [|p pages IH]; intros acc w Hok.
  - exists []. simpl. unfold ret. rewrite !app_nil_r. by destruct w.
  - destruct (getGithubApiRequest_ok
                (apiUrl +:+ "?per_page=100&page=" +:+ str p) true (items p) w)
      as (lines1 & Hrun1 & Hw1).
    { apply Hok. by left. }
    simpl. unfold extend_with_page at 1.
    rewrite (bind_Ok _ _ _ _ _ (bind_Ok _ _ _ _ _ Hrun1)).
    destruct (IH (acc ++ items p)
                (World (log w ++ lines1)
                   (requests w ++
                    ["https://api.github.com/" +:+
                     (apiUrl +:+ "?per_page=100&page=" +:+ str p)])
                   (file w)))
      as (lines2 & Hrun2 & Hw2).
    { intros q Hq. apply Hok. by right. }
    exists (lines1 ++ lines2). split.
    + rewrite Hrun2. simpl. by rewrite <- !app_assoc.
    + by rewrite filter_app, Hw1, Hw2.
Qed.

End RequestFacts.

Section RequestClaims.
Context `{Remote} `{LocalTime}.
Import githubREST.

(** C8 (as amended).  The page limit is the constant 10 of line 73.  The
    first response reports the last-page index [n], and the responses to
    the pages that are requested, which are page 1 and the pages 2 up to
    [n] or to 10, whichever is less, leave rate limit to spare and decode
    to lists.  Then the fetcher requests these pages, in that order, and
    returns their items concatenated in that order; it logs the truncation
    warning exactly once when [n] exceeds 10 and no warning otherwise.  So
    above 10 exactly the pages 1 to 10 are requested, and from 1 to 10 the
    pages 1 to [n]. *)
Theorem getPaginatedGithubApiRequest_pages (apiUrl : string)
    (items : Z → list json) (n : Z) (w : world) :
  reported_lastPage (http_get (first_url apiUrl)) = n →
  (∀ p, p ∈ pages_fetched n →
        page_ok (http_get (page_url apiUrl p)) (items p)) →
  let run := getPaginatedGithubApiRequest apiUrl w in
  let pages := pages_fetched n in
  snd run = Ok (JList (concat (items <$> pages)))
  ∧ requests (fst run) = requests w ++ (page_url apiUrl <$> pages)
  ∧ (∃ lines,
       log (fst run) = log w ++ lines
       ∧ filter is_warning lines
         = if 10 <? n then [truncation_warning] else [])
  ∧ (10 < n → pages = [1; 2; 3; 4; 5; 6; 7; 8; 9; 10])
  ∧ (1 ≤ n ≤ 10 → pages = range 1 (n + 1)).
Proof.
  intros Hn Hok run pages.
  assert (run = getPaginatedGithubApiRequest apiUrl w) as Hrun by done.
  clearbody run. unfold getPaginatedGithubApiRequest in Hrun.
  destruct (getGithubApiRequest_ok (apiUrl +:+ "?per_page=100") false
              (items 1) w) as (lines1 & Hfirst & Hw1).
  { apply (Hok 1). by left. }
  rewrite (bind_Ok _ _ _ _ _ Hfirst) in Hrun.
  assert (decoded (http_get (first_url apiUrl)) = Ok (JList (items 1)))
    as Hdec by (apply (Hok 1); by left).
  unfold bind at 1, lift at 1, value_json in Hrun.
  change ("https://api.github.com/" +:+ apiUrl +:+ "?per_page=100")
    with (first_url apiUrl) in Hrun.
  rewrite Hdec in Hrun.
  change (try_except (lastPage_of (ARequest (http_get (first_url apiUrl)))) 1)
    with (reported_lastPage (http_get (first_url apiUrl))) in Hrun.
  rewrite Hn in Hrun.
  set (w1 := World (log w ++ lines1) (requests w ++ [first_url apiUrl])
               (file w)) in Hrun.
  set (capped := if 10 <? n then 10 else n).
  set (w2 := if 10 <? n
             then World (log w1 ++ [truncation_warning]) (requests w1) (file w1)
             else w1).
  assert (run = for_each (extend_with_page apiUrl) (range 2 (capped + 1))
                  (JList (items 1)) w2) as Hloop.
  { rewrite Hrun. unfold bind, logPrint, ret, capped, w2.
    rewrite Z.gtb_ltb. by destruct (10 <? n). }
  assert (capped = Z.min n 10) as Hcap.
  { unfold capped. destruct (Z.ltb_spec 10 n); lia. }
  rewrite Hcap in Hloop.
  destruct (pages_loop apiUrl items (range 2 (Z.min n 10 + 1)) (items 1) w2)
    as (lines2 & Hrun2 & Hw2).
  { intros p Hp.
    replace (next_url apiUrl p) with (page_url apiUrl p).
    - apply Hok. by right.
    - apply elem_of_range in Hp.
      unfold page_url. by destruct (Z.eqb_spec p 1); [lia|]. }
  rewrite Hrun2 in Hloop.
  assert (next_url apiUrl <$> range 2 (Z.min n 10 + 1)
          = page_url apiUrl <$> range 2 (Z.min n 10 + 1)) as Hurls.
  { apply list_fmap_ext. intros i p Hp.
    apply list_elem_of_lookup_2, elem_of_range in Hp.
    unfold page_url. by destruct (Z.eqb_spec p 1); [lia|]. }
  rewrite Hloop. unfold pages, pages_fetched. simpl.
  split; [done|]. split; [|split; [|split]].
  - rewrite Hurls. unfold w2, w1.
    destruct (10 <? n); simpl; by rewrite <- app_assoc.
  - unfold w2, w1. destruct (10 <? n); simpl.
    + exists (lines1 ++ [truncation_warning] ++ lines2). split.
      * by rewrite <- !app_assoc.
      * by rewrite !filter_app, Hw1, Hw2.
    + exists (lines1 ++ lines2). split.
      * by rewrite <- !app_assoc.
      * by rewrite !filter_app, Hw1, Hw2.
  - intros Hlt. by replace (Z.min n 10) with 10 by lia.
  - intros Hle. replace (Z.min n 10) with n by lia.
    by rewrite (range_cons 1 (n + 1)) by lia.
Qed.

(** C9.  When the remaining-rate-limit counter of a response is below 1,
    [getGithubApiRequest] raises: it has made the request, and it neither
    logs the advice nor returns the decoded data.  The reset time is read
    from the headers as a str and handed to [time.ctime] as it is (the
    counter on line 14 goes through [int] first), which raises
    [TypeError]; a response without that header raises [KeyError]. *)
Theorem getGithubApiRequest_rate_limit_raises (urlExcBase : string)
    (jsonOnly : bool) (w : world) (remaining : string) (n : Z) :
  let fullUrl := "https://api.github.com/" +:+ urlExcBase in
  let run := getGithubApiRequest urlExcBase jsonOnly w in
  headers (http_get fullUrl) !! "X-RateLimit-Remaining" = Some remaining →
  int remaining = Ok n → n < 1 →
  (∃ e, snd run = Raise e)
  ∧ log (fst run) = log w
  ∧ requests (fst run) = requests w ++ [fullUrl]
  ∧ (is_Some (headers (http_get fullUrl) !! "X-RateLimit-Reset") →
     snd run = Raise TypeError).
Proof.
  intros fullUrl run Hrem Hint Hlt. unfold run.
  rewrite (getGithubApiRequest_exhausted urlExcBase jsonOnly w remaining n)
    by done.
  simpl. split; [by eexists|]. split; [done|]. split; [done|].
  intros [reset Hreset]. unfold fullUrl in Hreset. by rewrite Hreset.
Qed.

End RequestClaims.

(** ** The theorems at concrete inputs *)

Import githubREST UserReposTraffic.

Lemma getListOfAliveForks_includes_iff_witness :
  ∃ keep : list bool,
    @getListOfAliveForks Iso.utils_iso Fixtures.forks_remote
      Fixtures.local_time Fixtures.clock Fixtures.source_json 52 true
      Fixtures.fresh_world
    = (World [] ["https://api.github.com/repos/octo/source/forks?per_page=100"]
         None,
       Ok (select keep [Fixtures.fork_a; Fixtures.fork_b],
           JList [Fixtures.fork_a; Fixtures.fork_b]))
    ∧ keep !! 0%nat = Some true ∧ keep !! 1%nat = Some false.
Proof.
  destruct (@getListOfAliveForks_includes_iff Iso.utils_iso
              Fixtures.forks_remote Fixtures.local_time Fixtures.clock
              Fixtures.pushed_instant 1704067200000000
              [Fixtures.fork_a; Fixtures.fork_b] Fixtures.source_json
              "octo/source" 52 true Fixtures.fresh_world
              (World []
                 ["https://api.github.com/repos/octo/source/forks?per_page=100"]
                 None))
    as [Hfits _].
  - reflexivity.
  - vm_compute. reflexivity.
  - intros fork Hfork.
    repeat (apply elem_of_cons in Hfork as [->|Hfork]);
      [vm_compute; reflexivity..|by apply elem_of_nil in Hfork].
  - vm_compute; reflexivity.
  - destruct Hfits as (keep & Hlen & Hrun & Hkeep & Hout & _).
    + intros fork Hfork.
      repeat (apply elem_of_cons in Hfork as [->|Hfork]);
        [repeat split; vm_compute; discriminate..
        |by apply elem_of_nil in Hfork].
    + exists keep. split; [exact Hrun|]. split.
      * apply (Hkeep 0%nat Fixtures.fork_a eq_refl).
        left. vm_compute. split; reflexivity.
      * apply (Hout 1%nat Fixtures.fork_b eq_refl eq_refl).
        -- vm_compute; reflexivity.
        -- vm_compute. discriminate.
Defined.

(** C1, the claim as stated fails.  Under a lifespan of 500000 weeks fork A,
    pushed in 2024 after the source, is alive and newer by the predicate;
    the end of its window lies beyond the year 9999, and the filter raises
    [OverflowError] where the claim has it include the fork. *)
Lemma getListOfAliveForks_lifespan_overflows :
  snd (@getListOfAliveForks Iso.utils_iso Fixtures.forks_remote
         Fixtures.local_time Fixtures.clock Fixtures.source_json 500000 true
         Fixtures.fresh_world)
  = Raise OverflowError
  ∧ included (Fixtures.clock 0%nat) (Fixtures.pushed_instant Fixtures.fork_a)
      (Fixtures.pushed_instant Fixtures.source_json) 500000 true
  ∧ @pushedAt_of Iso.utils_iso Fixtures.fork_a = Ok 1706745600000000.
Proof.
  split; [vm_compute; reflexivity|]. split; [|vm_compute; reflexivity].
  left. vm_compute. split; reflexivity.
Qed.

Lemma mergeDataWithJson_appends_strictly_newer_witness :
  ∃ out,
    stored
      (file (fst (@mergeDataWithJson Iso.utils_iso
                    (Ok [Fixtures.may1; Fixtures.may2])
                    "octo/source" "clones" Fixtures.one_repo_world)))
      "octo/source" "clones" = Some out
    ∧ @merged Iso.utils_iso [sentinel; Fixtures.may1]
        [Fixtures.may1; Fixtures.may2] out.
Proof.
  destruct (@mergeDataWithJson_appends_strictly_newer Iso.utils_iso
              [Fixtures.may1; Fixtures.may2] "octo/source" "clones"
              Fixtures.one_repo_world)
    as (out & _ & Hstored & Hmerged & _).
  - vm_compute. discriminate.
  - intros newest Hnewest. vm_compute in Hnewest.
    injection Hnewest as <-. eexists. vm_compute. reflexivity.
  - repeat constructor; eexists; vm_compute; reflexivity.
  - exists out. split; [exact Hstored|exact Hmerged].
Defined.

Lemma merges_keep_ascending_witness :
  @ledger_ascending Iso.utils_iso
    (file (@run_merges Iso.utils_iso
             [MergeCall (Ok [Fixtures.may1; Fixtures.may2])
                "octo/source" "clones";
              MergeCall (Ok [Fixtures.may1; Fixtures.may2])
                "octo/source" "clones";
              MergeCall (Ok [Fixtures.may2]) "octo/source" "views"]
             Fixtures.fresh_world)).
Proof.
  apply (@merges_keep_ascending Iso.utils_iso).
  intros r k s Hs. discriminate Hs.
Defined.

Lemma getJsonData_total_uniques_witness :
  let w' :=
    fst (@mergeDataWithJson Iso.utils_iso
           (Ok [Sample "2024-05-01T00:00:00Z" 3;
                Sample "2024-05-02T00:00:00Z" 5])
           "octo/source" "clones" Fixtures.fresh_world) in
  getJsonData "octo/source" "clones" w' = (w', Ok 8).
Proof.
  apply (proj2 (@getJsonData_total_uniques Iso.utils_iso)
           Fixtures.fresh_world "octo/source" "clones"
           "2024-05-01T00:00:00Z" "2024-05-02T00:00:00Z"
           946684800000000 1714521600000000 1714608000000000);
    vm_compute; reflexivity.
Defined.

Lemma mergeDataWithJson_frame_witness :
  stored
    (file (fst (@mergeDataWithJson Iso.utils_iso (Ok [Fixtures.may2])
                  "octo/source" "views" Fixtures.one_repo_world)))
    "octo/source" "clones"
  = Some [sentinel; Fixtures.may1].
Proof.
  rewrite (@mergeDataWithJson_frame Iso.utils_iso (Ok [Fixtures.may2])
             "octo/source" "views" "octo/source" "clones"
             Fixtures.one_repo_world).
  - vm_compute. reflexivity.
  - intros Heq. discriminate Heq.
Defined.

(** C2, the claim as stated fails.  The sentinel is not at a least
    timestamp: it is the fixed [2000-01-01T00:00:00Z], and the last day of
    1999 is a well-formed timestamp before it.  A fresh sample of that day
    merged into a missing entry is compared with the sentinel and dropped:
    the merge returns and the stored sequence is the sentinel alone. *)
Lemma mergeDataWithJson_sentinel_not_least :
  (∃ x0 x,
     Iso.getDatetime_iso (timestamp sentinel) = Ok x0
     ∧ Iso.getDatetime_iso "1999-12-31T00:00:00Z" = Ok x
     ∧ x < x0)
  ∧ snd (@mergeDataWithJson Iso.utils_iso
           (Ok [Sample "1999-12-31T00:00:00Z" 4])
           "octo/source" "clones" Fixtures.fresh_world)
    = Ok tt
  ∧ stored
      (file (fst (@mergeDataWithJson Iso.utils_iso
                    (Ok [Sample "1999-12-31T00:00:00Z" 4])
                    "octo/source" "clones" Fixtures.fresh_world)))
      "octo/source" "clones"
    = Some [sentinel].
Proof.
  split; [|split; vm_compute; reflexivity].
  exists 946684800000000, 946598400000000.
  split; [vm_compute; reflexivity|].
  split; [vm_compute; reflexivity|lia].
Qed.

(** Where the amended statement stops.  A ledger file written by hand may
    hold an entry without a sample, or one whose last timestamp is not
    well-formed: there the comparison has nothing to compare with, the
    merge of a fresh day raises, and nothing is written. *)
Example mergeDataWithJson_no_predecessor :
  @mergeDataWithJson Iso.utils_iso (Ok [Fixtures.may1])
    "octo/source" "clones" Fixtures.empty_entry_world
  = (Fixtures.empty_entry_world, Raise IndexError)
  ∧ @mergeDataWithJson Iso.utils_iso (Ok [Fixtures.may1])
      "octo/source" "clones" Fixtures.malformed_entry_world
    = (Fixtures.malformed_entry_world, Raise ValueError).
Proof. split; vm_compute; reflexivity. Qed.

(** C3, the claim as stated fails.  The merge compares instants, not days:
    the samples of midnight and of noon of 2024-05-01 are both appended,
    and the stored sequence, strictly ascending as it is, holds two samples
    of one day. *)
Lemma merges_store_two_samples_of_a_day :
  stored
    (file (@run_merges Iso.utils_iso
             [MergeCall (Ok [Fixtures.may1; Fixtures.may1_noon])
                "octo/source" "clones"]
             Fixtures.fresh_world))
    "octo/source" "clones"
  = Some [sentinel; Fixtures.may1; Fixtures.may1_noon]
  ∧ ∃ x y,
      Iso.getDatetime_iso (timestamp Fixtures.may1) = Ok x
      ∧ Iso.getDatetime_iso (timestamp Fixtures.may1_noon) = Ok y
      ∧ x < y ∧ x / day_us = y / day_us.
Proof.
  split; [vm_compute; reflexivity|].
  exists 1714521600000000, 1714564800000000.
  split; [vm_compute; reflexivity|].
  split; [vm_compute; reflexivity|].
  split; [lia|vm_compute; reflexivity].
Qed.

Lemma score_weighted_sum_witness :
  ∃ w' e,
    @scoreRepo Iso.utils_iso "octo" [] Fixtures.report_input
      Fixtures.fresh_world = (w', Ok [e])
    ∧ entry_score e = 2 * 8 + 10 * 4 + 8 * 2 + 3 * 1.
Proof.
  destruct (@scoreRepo Iso.utils_iso "octo" [] Fixtures.report_input
              Fixtures.fresh_world) as [w' [out|e]] eqn:Hrun;
    [|vm_compute in Hrun; discriminate Hrun].
  destruct (proj2 (proj2 (@score_weighted_sum Iso.utils_iso))
              "octo" [] Fixtures.report_input Fixtures.fresh_world w' out
              Hrun) as (e & -> & Hforks & Hstars & Hscore).
  exists w', e. split; [reflexivity|].
  vm_compute in Hrun. injection Hrun as _ He.
  rewrite Hscore. rewrite <- He. reflexivity.
Defined.

Lemma getPaginatedGithubApiRequest_pages_witness :
  let run :=
    @getPaginatedGithubApiRequest (Fixtures.listing 15) Fixtures.local_time
      "users/octocat/repos" Fixtures.fresh_world in
  length (requests (fst run)) = 10%nat
  ∧ ∃ lines, log (fst run) = lines
             ∧ filter is_warning lines = [truncation_warning].
Proof.
  intros run.
  destruct (@getPaginatedGithubApiRequest_pages (Fixtures.listing 15)
              Fixtures.local_time "users/octocat/repos"
              (λ p, [JStr (page_url "users/octocat/repos" p)]) 15
              Fixtures.fresh_world)
    as (_ & Hreq & (lines & Hlog & Hwarn) & Hpages & _).
  - vm_compute. reflexivity.
  - intros p Hp. split; [|reflexivity].
    exists "4999", 4999. split; [reflexivity|]. split; [reflexivity|lia].
  - fold run in Hreq, Hlog. split.
    + rewrite Hreq, Hpages by lia. reflexivity.
    + exists lines. split; [exact Hlog|exact Hwarn].
Defined.

Lemma getGithubApiRequest_rate_limit_raises_witness :
  let run :=
    @getGithubApiRequest Fixtures.exhausted Fixtures.local_time
      "users/octocat" true Fixtures.fresh_world in
  snd run = Raise TypeError
  ∧ log (fst run) = []
  ∧ requests (fst run) = ["https://api.github.com/users/octocat"].
Proof.
  intros run.
  destruct (@getGithubApiRequest_rate_limit_raises Fixtures.exhausted
              Fixtures.local_time "users/octocat" true Fixtures.fresh_world
              "0" 0)
    as (_ & Hlog & Hreq & Hraise).
  - reflexivity.
  - reflexivity.
  - lia.
  - split; [|split; [exact Hlog|exact Hreq]].
    apply Hraise. by eexists.
Defined.

(** ** More on the traffic ledger *)

Section LedgerMore.
Context `{Utils}.





(** X2.  A merge is all or nothing on the file: when it raises, the file is
    what it was (a missing file stays missing, although the warnings about
    it were logged); when it returns, the file is there and holds a
    sequence for the repository and the traffic type.  An exception of the
    fetch passes through unchanged; the fetch itself, one
    [getGithubApiRequest], does not touch the file. *)
Theorem mergeDataWithJson_all_or_nothing (days : result (list sample))
    (repoName trafficType : string) (w : world) :
  let run := mergeDataWithJson days repoName trafficType w in
  (∀ e, snd run = Raise e → file (fst run) = file w)
  ∧ (snd run = Ok tt →
     is_Some (stored (file (fst run)) repoName trafficType))
  ∧ (∀ e, days = Raise e → snd run = Raise e).
Proof.
  intros run.
  destruct (mergeDataWithJson_run days repoName trafficType w)
    as (Hfile & Hres & _).
  fold run in Hfile, Hres. rewrite Hfile, Hres.
  unfold merge_outcome.
  split; [|split].
  - intros e. unfold merged_file. destruct days as [ds|e']; simpl; [|done].
    by destruct (merge_days _ ds).
  - destruct days as [ds|e']; simpl; [|done].
    destruct (merge_days _ ds) as [out|] eqn:Hrun; simpl; [|done].
    intros _. rewrite lookup_insert_eq. simpl. by rewrite lookup_insert_eq.
  - by intros e ->.
Qed.

Lemma merge_days_well_stamped s days out :
  merge_days s days = Ok out →
  well_stamped days ∧ (well_stamped s → well_stamped out).
Proof.
  revert s. induction days as [|day rest IH]; intros s; simpl.
  - intros [= <-]. split; [constructor|done].
  - destruct (merge_day s day) as [s'|] eqn:Hday; simpl; [|done].
    apply merge_day_Ok in Hday as (newest & x & y & _ & _ & Hy & ->).
    intros Hrest. apply IH in Hrest as [Hdays Hout].
    split; [constructor; [by exists y|done]|].
    intros Hs. apply Hout. destruct (x <? y); [|done].
    apply Forall_app_2; [done|]. constructor; [by exists y|constructor].
Qed.

Lemma merged_file_written f days repoName trafficType :
  is_Ok (getDatetime (timestamp sentinel)) →
  ledger_written f →
  ledger_written (merged_file f days repoName trafficType).
Proof.
  intros Hsentinel Hf r k s Hs.
  destruct (decide ((r, k) = (repoName, trafficType))) as [[= -> ->]|Hne];
    [|rewrite stored_merged_file_other in Hs by done; by eapply Hf].
  unfold merged_file in Hs. destruct days as [ds|e]; [|by eapply Hf].
  destruct (merge_days (base_of f repoName trafficType) ds) as [out|e]
    eqn:Hrun; [|by eapply Hf].
  pose proof (stored_merged_file_same _ _ _ _ _ Hrun) as Hstored.
  unfold merged_file in Hstored. rewrite Hrun in Hstored.
  rewrite Hstored in Hs. injection Hs as <-.
  assert (head (base_of f repoName trafficType) = Some sentinel
          ∧ well_stamped (base_of f repoName trafficType)) as [Hhead Hbase].
  { unfold base_of.
    destruct (stored f repoName trafficType) as [s|] eqn:Hs; simpl.
    - by eapply Hf.
    - split; [done|]. by repeat constructor. }
  split.
  - apply merge_days_extends in Hrun as (app & -> & _).
    destruct (base_of f repoName trafficType); simplify_eq/=. done.
  - by apply (merge_days_well_stamped _ _ _ Hrun).
Qed.

(** X3.  Ledgers that the merges themselves wrote never stop a merge.
    When the sentinel's timestamp is well-formed, and the file is missing
    or holds only sequences that begin with the sentinel and carry
    well-formed timestamps, any number of merges leaves such a file, and a
    further merge of days with well-formed timestamps returns: the
    [IndexError] of an empty sequence and the [ValueError] of a stored
    timestamp cannot occur. *)
Theorem merges_never_stuck (calls : list merge_call) (w : world) :
  is_Ok (getDatetime (timestamp sentinel)) →
  ledger_written (file w) →
  let w' := run_merges calls w in
  ledger_written (file w')
  ∧ ∀ ds repoName trafficType,
      well_stamped ds →
      snd (mergeDataWithJson (Ok ds) repoName trafficType w') = Ok tt.
Proof.
  intros Hsentinel Hw w'.
  assert (ledger_written (file w')) as Hw'.
  { subst w'. revert w Hw. induction calls as [|c calls IH]; intros w Hw;
      [done|].
    simpl. apply IH.
    destruct (mergeDataWithJson_run (call_days c) (call_repo c)
                (call_type c) w) as (Hfile & _).
    simpl in Hfile. rewrite Hfile. by apply merged_file_written. }
  split; [done|]. intros ds repoName trafficType Hds.
  destruct (mergeDataWithJson_run (Ok ds) repoName trafficType w')
    as (_ & Hres & _).
  simpl in Hres. rewrite Hres. unfold merge_outcome. simpl.
  assert (head (base_of (file w') repoName trafficType) = Some sentinel
          ∧ well_stamped (base_of (file w') repoName trafficType))
    as [Hhead Hbase].
  { unfold base_of.
    destruct (stored (file w') repoName trafficType) as [s|] eqn:Hs; simpl.
    - by eapply Hw'.
    - split; [done|]. by repeat constructor. }
  destruct (merge_days_merged (base_of (file w') repoName trafficType) ds)
    as (out & -> & _); [|  |done|done].
  - intros Hnil. by rewrite Hnil in Hhead.
  - intros newest Hnewest. unfold well_stamped in Hbase.
    rewrite Forall_forall in Hbase. apply Hbase.
    by eapply last_Some_elem_of.
Qed.

End LedgerMore.

Section LedgerTotals.
Context `{Utils}.

Lemma filter_agree {A} (P Q : A → Prop) `{!∀ a, Decision (P a)}
    `{!∀ a, Decision (Q a)} (l : list A) :
  Forall (λ a, P a ↔ Q a) l → filter P l = filter Q l.
Proof.
  induction 1 as [|a l Ha Hl IH]; [done|].
  rewrite !filter_cons, IH. repeat case_decide; [done|tauto|tauto|done].
Qed.

Lemma merge_days_ascending_days s newest x days :
  last s = Some newest → getDatetime (timestamp newest) = Ok x →
  well_stamped days → ascending days →
  merge_days s days = Ok (s ++ filter (instant_after x) days).
Proof.
  intros Hlast Hx Hdays Hasc. revert s newest x Hlast Hx.
  induction Hasc as [|day rest Hrest IH Hday]; intros s newest x Hlast Hx.
  - simpl. by rewrite app_nil_r.
  - apply Forall_cons in Hdays as [[y Hy] Hdays]. simpl.
    assert (instant_after x day ↔ x < y) as Hafter.
    { unfold instant_after. by rewrite Hy. }
    rewrite filter_cons.
    destruct (Z.ltb_spec x y) as [Hlt|Hge].
    + rewrite (merge_day_newer s newest day x y) by done. simpl.
      rewrite (IH Hdays (s ++ [day]) day y (last_snoc _ _) Hy).
      rewrite decide_True by by apply Hafter.
      rewrite <- app_assoc. simpl.
      do 3 f_equal. apply filter_agree.
      eapply Forall_impl; [exact Hday|]. simpl.
      intros a (y' & z & Hy' & Hz & Hlt'). unfold instant_after. rewrite Hz.
      assert (y' = y) as -> by congruence. split; lia.
    + assert (merge_day s day = Ok s) as ->.
      { apply merge_day_Ok. exists newest, x, y. repeat split; [done..|].
        by destruct (Z.ltb_spec x y); [lia|]. }
      simpl. rewrite decide_False by (rewrite Hafter; lia). by eapply IH.
Qed.

(** X4.  For fresh days in strictly ascending order with well-formed
    timestamps, the merge stores the sequence it started from followed by
    exactly the days later than the sample stored last, in their order:
    no newer day is lost and no day stored already is stored again. *)
Theorem mergeDataWithJson_ascending_days (days : list sample)
    (repoName trafficType : string) (w : world) (newest : sample) (x : Z) :
  let base := base_of (file w) repoName trafficType in
  let run := mergeDataWithJson (Ok days) repoName trafficType w in
  last base = Some newest → getDatetime (timestamp newest) = Ok x →
  well_stamped days → ascending days →
  snd run = Ok tt
  ∧ stored (file (fst run)) repoName trafficType
    = Some (base ++ filter (instant_after x) days).
Proof.
  intros base run Hlast Hx Hdays Hasc.
  pose proof (merge_days_ascending_days base newest x days Hlast Hx Hdays Hasc)
    as Hrun.
  destruct (mergeDataWithJson_run (Ok days) repoName trafficType w)
    as (Hfile & Hres & _).
  fold run in Hfile, Hres. split.
  - rewrite Hres. unfold merge_outcome. simpl. fold base. by rewrite Hrun.
  - rewrite Hfile. by apply stored_merged_file_same.
Qed.

Lemma total_uniques_app s1 s2 :
  total_uniques (s1 ++ s2) = total_uniques s1 + total_uniques s2.
Proof.
  unfold total_uniques. induction s1 as [|a s1 IH]; simpl; lia.
Qed.

(** X5.  A merge that returns raises the total of [getJsonData] by the
    uniques of the samples it appended, which are fresh days in their
    order; the sentinel of a new entry adds nothing, so the total of a new
    entry is that of the appended days alone. *)
Theorem mergeDataWithJson_total (days : list sample)
    (repoName trafficType : string) (w : world) :
  let run := mergeDataWithJson (Ok days) repoName trafficType w in
  let before_ := default [] (stored (file w) repoName trafficType) in
  snd run = Ok tt →
  ∃ app,
    app `sublist_of` days
    ∧ stored (file (fst run)) repoName trafficType
      = Some (base_of (file w) repoName trafficType ++ app)
    ∧ getJsonData repoName trafficType (fst run)
      = (fst run, Ok (total_uniques before_ + total_uniques app)).
Proof.
  intros run before_ Hok.
  destruct (mergeDataWithJson_run (Ok days) repoName trafficType w)
    as (Hfile & Hres & _).
  fold run in Hfile, Hres. rewrite Hres in Hok. unfold merge_outcome in Hok.
  simpl in Hok.
  destruct (merge_days (base_of (file w) repoName trafficType) days)
    as [out|e] eqn:Hrun; [|done].
  pose proof (stored_merged_file_same _ _ _ _ _ Hrun) as Hstored.
  rewrite <- Hfile in Hstored.
  apply merge_days_extends in Hrun as (app & -> & Hsub).
  exists app. split; [done|]. split; [done|].
  rewrite (getJsonData_run _ _ _ _ Hstored), total_uniques_app.
  do 3 f_equal. unfold before_, base_of.
  by destruct (stored (file w) repoName trafficType).
Qed.

(** X6.  [getJsonData] reads and never writes: it leaves the world as it
    is, returns exactly when a sequence is stored for the repository and
    the traffic type, raises [FileNotFoundError] without the file and
    [KeyError] when the file lacks the repository or the traffic type. *)
Theorem getJsonData_errors (repoName trafficType : string) (w : world) :
  let run := getJsonData repoName trafficType w in
  fst run = w
  ∧ (is_Ok (snd run) ↔ is_Some (stored (file w) repoName trafficType))
  ∧ (file w = None → snd run = Raise FileNotFoundError)
  ∧ (is_Some (file w) → stored (file w) repoName trafficType = None →
     snd run = Raise KeyError).
Proof.
  unfold getJsonData, stored, bind, read_file, lift, ret, getitem. simpl.
  destruct (file w) as [L|]; simpl;
    [destruct (L !! repoName) as [repoTraffic|]; simpl;
     [destruct (repoTraffic !! trafficType) as [s|]; simpl|]|];
    repeat split;
    try done; try (by eexists); try (by intros [? [=]]).
Qed.

End LedgerTotals.

(** ** More on the requests *)

Section RequestMore.
Context `{Remote} `{LocalTime}.

Lemma getGithubApiRequest_answers urlExcBase jsonOnly j b w :
  let fullUrl := "https://api.github.com/" +:+ urlExcBase in
  answers (http_get fullUrl) j → json_contains "message" j = Ok b →
  getGithubApiRequest urlExcBase jsonOnly w
  = (World (log w ++ (if b then error_lines fullUrl j else []))
       (requests w ++ [fullUrl]) (file w),
     Ok (if jsonOnly then AJson j else ARequest (http_get fullUrl))).
Proof.
  intros fullUrl [(remaining & n & Hrem & Hint & Hn) Hdec] Hmsg.
  unfold getGithubApiRequest, bind, requests_get, lift, getitem.
  fold fullUrl. simpl. rewrite Hrem. simpl. rewrite Hint.
  destruct (Z.ltb_spec n 1); [lia|]. simpl. rewrite Hdec. simpl.
  rewrite Hmsg. destruct b; simpl.
  - by rewrite <- app_assoc.
  - by rewrite app_nil_r.
Qed.

Lemma getGithubApiRequest_effects urlExcBase jsonOnly w :
  let fullUrl := "https://api.github.com/" +:+ urlExcBase in
  let run := getGithubApiRequest urlExcBase jsonOnly w in
  requests (fst run) = requests w ++ [fullUrl]
  ∧ file (fst run) = file w
  ∧ ∃ lines, log (fst run) = log w ++ lines ∧ filter is_warning lines = [].
Proof.
  intros fullUrl.
  unfold getGithubApiRequest, bind, requests_get, lift, getitem.
  fold fullUrl. simpl.
  destruct (headers (http_get fullUrl) !! "X-RateLimit-Remaining")
    as [remaining|]; simpl;
    [|repeat split; exists []; by rewrite app_nil_r].
  destruct (int remaining) as [n|]; simpl;
    [|repeat split; exists []; by rewrite app_nil_r].
  destruct (n <? 1); simpl.
  { destruct (headers (http_get fullUrl) !! "X-RateLimit-Reset"); simpl;
      repeat split; exists []; by rewrite app_nil_r. }
  destruct (decoded (http_get fullUrl)) as [j|]; simpl;
    [|repeat split; exists []; by rewrite app_nil_r].
  destruct (json_contains "message" j) as [[]|]; simpl;
    repeat split;
    [eexists; by rewrite <- app_assoc|exists []; by rewrite app_nil_r..].
Qed.

(** X7.  Whatever the remote answers, [getGithubApiRequest] makes exactly
    one request, to the URL under [https://api.github.com/], leaves the
    ledger file alone and logs no warning; and an answer with rate limit to
    spare that is an error payload (an object with a ["message"]) is logged
    in two lines, the error and the payload, and still returned. *)
Theorem getGithubApiRequest_one_request (urlExcBase : string)
    (jsonOnly : bool) (w : world) :
  let fullUrl := "https://api.github.com/" +:+ urlExcBase in
  let run := getGithubApiRequest urlExcBase jsonOnly w in
  requests (fst run) = requests w ++ [fullUrl]
  ∧ file (fst run) = file w
  ∧ (∃ lines, log (fst run) = log w ++ lines ∧ filter is_warning lines = [])
  ∧ (∀ fields,
       answers (http_get fullUrl) (JObj fields) →
       existsb (λ kv, String.eqb (fst kv) "message") fields = true →
       log (fst run) = log w ++ error_lines fullUrl (JObj fields)
       ∧ snd run = Ok (if jsonOnly then AJson (JObj fields)
                       else ARequest (http_get fullUrl))).
Proof.
  intros fullUrl run.
  destruct (getGithubApiRequest_effects urlExcBase jsonOnly w)
    as (Hreq & Hfile & Hlog).
  split; [done|]. split; [done|]. split; [done|].
  intros fields Hanswer Hmsg. subst run.
  rewrite (getGithubApiRequest_answers urlExcBase jsonOnly (JObj fields)
             true w Hanswer); [done|].
  simpl. by rewrite Hmsg.
Qed.

Lemma extend_with_page_effects apiUrl acc p w :
  let run := extend_with_page apiUrl acc p w in
  requests (fst run) = requests w ++ [next_url apiUrl p]
  ∧ file (fst run) = file w
  ∧ ∃ lines, log (fst run) = log w ++ lines ∧ filter is_warning lines = [].
Proof.
  pose proof (getGithubApiRequest_effects
                (apiUrl +:+ "?per_page=100&page=" +:+ str p) true w) as Heff.
  unfold extend_with_page, bind, lift.
  destruct (getGithubApiRequest _ true w) as [w1 [v|e]]; simpl in *;
    [|done].
  by destruct (let? more := value_as_json v in json_extend acc more).
Qed.

Lemma pages_loop_effects apiUrl pages acc w :
  let run := for_each (extend_with_page apiUrl) pages acc w in
  file (fst run) = file w
  ∧ ∃ urls lines,
      requests (fst run) = requests w ++ urls
      ∧ (length urls ≤ length pages)%nat
      ∧ log (fst run) = log w ++ lines
      ∧ filter is_warning lines = [].
Proof.
  revert acc w. induction pages as [|p pages IH]; intros acc w; simpl.
  - split; [done|]. exists [], []. by rewrite !app_nil_r.
  - destruct (extend_with_page_effects apiUrl acc p w)
      as (Hreq & Hfile & lines1 & Hlog & Hw1).
    unfold bind.
    destruct (extend_with_page apiUrl acc p w) as [w1 [acc'|e]];
      simpl in Hreq, Hfile, Hlog.
    + destruct (IH acc' w1) as (Hfile2 & urls & lines2 & Hreq2 & Hlen
                                 & Hlog2 & Hw2).
      split; [congruence|].
      exists (next_url apiUrl p :: urls), (lines1 ++ lines2).
      rewrite Hreq2, Hreq, Hlog2, Hlog, <- !app_assoc. simpl.
      repeat split; [lia|]. by rewrite filter_app, Hw1, Hw2.
    + split; [done|]. exists [next_url apiUrl p], lines1. simpl.
      repeat split; [done|lia|done..].
Qed.

Lemma length_range a b : length (range a b) = Z.to_nat (b - a).
Proof. unfold range. by rewrite length_fmap, length_seq. Qed.

(** X8.  Whatever the remote answers and however the fetch ends, a
    paginated fetch makes at least one and at most 10 requests, the first
    of them for the first page, leaves the ledger file alone, and logs at
    most one warning. *)
Theorem getPaginatedGithubApiRequest_bounded (apiUrl : string) (w : world) :
  let run := getPaginatedGithubApiRequest apiUrl w in
  file (fst run) = file w
  ∧ ∃ urls lines,
      requests (fst run) = requests w ++ first_url apiUrl :: urls
      ∧ (length urls ≤ 9)%nat
      ∧ log (fst run) = log w ++ lines
      ∧ (length (filter is_warning lines) ≤ 1)%nat.
Proof.
  intros run.
  assert (run = getPaginatedGithubApiRequest apiUrl w) as Hrun by done.
  clearbody run. unfold getPaginatedGithubApiRequest in Hrun.
  destruct (getGithubApiRequest_effects (apiUrl +:+ "?per_page=100") false w)
    as (Hreq & Hfile & lines1 & Hlog & Hw1).
  unfold bind at 1 in Hrun.
  destruct (getGithubApiRequest _ false w) as [w1 [firstPage|e]];
    simpl in Hreq, Hfile, Hlog.
  2: { subst run. simpl. split; [done|]. exists [], lines1. rewrite Hw1.
       simpl. repeat split; [done|lia|done|lia]. }
  unfold bind at 1, lift at 1 in Hrun.
  destruct (value_json firstPage) as [iterable|e].
  2: { subst run. simpl. split; [done|]. exists [], lines1. rewrite Hw1.
       simpl. repeat split; [done|lia|done|lia]. }
  set (lastPage := try_except (lastPage_of firstPage) 1) in Hrun.
  set (w2 := if lastPage >? 10
             then World (log w1 ++ [truncation_warning]) (requests w1) (file w1)
             else w1).
  set (capped := if lastPage >? 10 then 10 else lastPage).
  assert (run = for_each (extend_with_page apiUrl) (range 2 (capped + 1))
                  iterable w2) as Hloop.
  { rewrite Hrun. unfold bind, logPrint, ret, capped, w2.
    by destruct (lastPage >? 10). }
  clear Hrun.
  destruct (pages_loop_effects apiUrl (range 2 (capped + 1)) iterable w2)
    as (Hfile2 & urls & lines2 & Hreq2 & Hlen & Hlog2 & Hw2).
  rewrite <- Hloop in Hfile2, Hreq2, Hlog2.
  rewrite length_range in Hlen.
  assert (capped ≤ 10) as Hcap.
  { unfold capped. destruct (Z.gtb_spec lastPage 10); lia. }
  split.
  { rewrite Hfile2. unfold w2. by destruct (lastPage >? 10). }
  exists urls,
    (lines1 ++ (if lastPage >? 10 then [truncation_warning] else []) ++ lines2).
  rewrite Hreq2, Hlog2. unfold w2.
  destruct (lastPage >? 10); simpl;
    rewrite ?Hreq, ?Hlog, <- ?app_assoc, !filter_app, ?Hw1, ?Hw2; simpl;
    repeat split; try done; rewrite ?Hw2; simpl; lia.
Qed.

Lemma getPaginatedGithubApiRequest_at_most_10 (apiUrl : string) (w : world) :
  (length (requests (fst (getPaginatedGithubApiRequest apiUrl w)))
   ≤ length (requests w) + 10)%nat.
Proof.
  set (run := getPaginatedGithubApiRequest apiUrl w).
  assert (run = getPaginatedGithubApiRequest apiUrl w) as Hrun by done.
  clearbody run. unfold getPaginatedGithubApiRequest in Hrun.
  destruct (getGithubApiRequest_effects (apiUrl +:+ "?per_page=100") false w)
    as (Hreq & _).
  unfold bind at 1 in Hrun.
  destruct (getGithubApiRequest _ false w) as [w1 [firstPage|e]];
    simpl in Hreq.
  2: { subst run. simpl. rewrite Hreq, length_app. simpl. lia. }
  unfold bind at 1, lift at 1 in Hrun.
  destruct (value_json firstPage) as [iterable|e].
  2: { subst run. simpl. rewrite Hreq, length_app. simpl. lia. }
  set (lastPage := try_except (lastPage_of firstPage) 1) in Hrun.
  set (w2 := if lastPage >? 10
             then World (log w1 ++ [truncation_warning]) (requests w1) (file w1)
             else w1).
  set (capped := if lastPage >? 10 then 10 else lastPage).
  assert (run = for_each (extend_with_page apiUrl) (range 2 (capped + 1))
                  iterable w2) as Hloop.
  { rewrite Hrun. unfold bind, logPrint, ret, capped, w2.
    by destruct (lastPage >? 10). }
  destruct (pages_loop_effects apiUrl (range 2 (capped + 1)) iterable w2)
    as (_ & urls & lines2 & Hreq2 & Hlen & _).
  rewrite <- Hloop in Hreq2. rewrite length_range in Hlen.
  assert (capped ≤ 10) as Hcap.
  { unfold capped. destruct (Z.gtb_spec lastPage 10); lia. }
  assert (requests w2 = requests w1) as Hw2.
  { unfold w2. by destruct (lastPage >? 10). }
  rewrite Hreq2, Hw2, Hreq, !length_app. simpl. lia.
Qed.

End RequestMore.

(** C8, the claim as stated fails.  The limit cannot be set.  The fetcher
    takes the URL and nothing else: whatever it is called with and whatever
    the remote answers, it makes at most 10 requests.  On a listing whose
    last page is 11 it requests the pages 1 to 10 and logs the warning,
    which names the constant. *)
Lemma getPaginatedGithubApiRequest_limit_fixed :
  (let run :=
     @githubREST.getPaginatedGithubApiRequest (Fixtures.listing 11)
       Fixtures.local_time "users/octocat/repos" Fixtures.fresh_world in
   requests (fst run)
   = page_url "users/octocat/repos" <$> [1; 2; 3; 4; 5; 6; 7; 8; 9; 10]
   ∧ filter is_warning (log (fst run)) = [truncation_warning])
  ∧ (∀ (remote : Remote) (local : LocalTime) (apiUrl : string) (w : world),
       (length (requests
                  (fst (githubREST.getPaginatedGithubApiRequest apiUrl w)))
        ≤ length (requests w) + 10)%nat).
Proof.
  split; [vm_compute; split; reflexivity|].
  intros remote local apiUrl w. apply getPaginatedGithubApiRequest_at_most_10.
Qed.

Section PagesMore.
Context `{Remote} `{LocalTime}.



Lemma range_nil a b : b ≤ a → range a b = [].
Proof. intros Hle. unfold range. by replace (Z.to_nat (b - a)) with 0%nat by lia. Qed.

Lemma reported_lastPage_no_link r :
  links r !! "last" = None → reported_lastPage r = 1.
Proof.
  intros Hlast. unfold reported_lastPage, lastPage_of, getitem. simpl.
  by rewrite Hlast.
Qed.






End PagesMore.

(** ** More on the liveness filter *)

Section LivenessMore.
Context `{Utils} `{Remote} `{LocalTime}.

(** What [sourceAlive] returns is decided by the push time it reads. *)
Lemma sourceAlive_pushed now repoData lifespan b :
  sourceAlive now repoData lifespan = Ok b →
  ∃ pushed,
    ∀ now' lifespan',
      sourceAlive now' repoData lifespan'
      = let? until := alive_until pushed lifespan' in Ok (now' <? until).
Proof.
  unfold sourceAlive.
  destruct (json_contains "pushed_at" repoData) as [snake|]; simpl; [|done].
  destruct (if snake then json_getitem repoData "pushed_at"
            else json_getitem repoData "pushedAt") as [pushedAt|]; simpl;
    [|done].
  destruct (getDatetime_json pushedAt) as [pushed|]; simpl; [|done].
  intros _. by exists pushed.
Qed.

Lemma alive_until_cases pushed lifespan :
  alive_until pushed lifespan = Ok (pushed + lifespan * 7 * day_us)
  ∨ alive_until pushed lifespan = Raise OverflowError.
Proof.
  destruct (decide (window_fits pushed lifespan)) as [Hfits|Hnot].
  - left. by apply alive_until_Ok.
  - right. by apply alive_until_overflows.
Qed.

(** X12.  [sourceAlive] is monotone in the clock and, as far as the dates
    can be held, in the lifespan: a repository found alive is alive at any
    earlier reading of the clock, and under a longer lifespan it is alive
    or the end of its window overflows; one found stale is stale at any
    later reading, and under a shorter lifespan it is stale or the window
    overflows. *)
Theorem sourceAlive_monotone (now now' : Z) (repoData : json)
    (lifespan lifespan' : Z) :
  now' ≤ now → lifespan ≤ lifespan' →
  (sourceAlive now repoData lifespan = Ok true →
   sourceAlive now' repoData lifespan = Ok true
   ∧ (sourceAlive now' repoData lifespan' = Ok true
      ∨ sourceAlive now' repoData lifespan' = Raise OverflowError))
  ∧ (sourceAlive now' repoData lifespan' = Ok false →
     sourceAlive now repoData lifespan' = Ok false
     ∧ (sourceAlive now repoData lifespan = Ok false
        ∨ sourceAlive now repoData lifespan = Raise OverflowError)).
Proof.
  intros Hnow Hlife. unfold day_us. split; intros Hrun.
  - destruct (sourceAlive_pushed _ _ _ _ Hrun) as [pushed Hpushed].
    rewrite Hpushed in Hrun. rewrite !Hpushed.
    destruct (alive_until_cases pushed lifespan) as [Hu|Hu];
      rewrite Hu in *; simpl in *; [|done].
    injection Hrun as Hb. apply Z.ltb_lt in Hb.
    split; [f_equal; apply Z.ltb_lt; lia|].
    destruct (alive_until_cases pushed lifespan') as [Hu'|Hu'];
      rewrite Hu'; simpl; [left|by right].
    f_equal. apply Z.ltb_lt. unfold day_us in *. nia.
  - destruct (sourceAlive_pushed _ _ _ _ Hrun) as [pushed Hpushed].
    rewrite Hpushed in Hrun. rewrite !Hpushed.
    destruct (alive_until_cases pushed lifespan') as [Hu'|Hu'];
      rewrite Hu' in *; simpl in *; [|done].
    injection Hrun as Hb. apply Z.ltb_ge in Hb.
    split; [f_equal; apply Z.ltb_ge; lia|].
    destruct (alive_until_cases pushed lifespan) as [Hu|Hu];
      rewrite Hu; simpl; [left|by right].
    f_equal. apply Z.ltb_ge. unfold day_us in *. nia.
Qed.

Lemma existsb_find {A} (f : A → bool) (l : list A) :
  existsb f l = match find f l with Some _ => true | None => false end.
Proof. induction l as [|a l IH]; simpl; [done|]. by destruct (f a). Qed.

(** X13.  [sourceAlive] reads the push time under ["pushed_at"] when the
    repository has that key, even if it has ["pushedAt"] too, and under
    ["pushedAt"] otherwise; a repository with neither raises [KeyError].
    The value found decides the outcome: what [utils.getDatetime] makes of
    it, then the window, then the comparison with the clock. *)
Theorem sourceAlive_keys (now : Z) (fields : list (string * json))
    (lifespan : Z) :
  let look key := find (λ kv : string * json, String.eqb (fst kv) key) fields in
  let alive_at pushedAt :=
    let? pushed := getDatetime_json pushedAt in
    let? until := alive_until pushed lifespan in
    Ok (now <? until) in
  (∀ kv, look "pushed_at" = Some kv →
     sourceAlive now (JObj fields) lifespan = alive_at (snd kv))
  ∧ (∀ kv, look "pushed_at" = None → look "pushedAt" = Some kv →
       sourceAlive now (JObj fields) lifespan = alive_at (snd kv))
  ∧ (look "pushed_at" = None → look "pushedAt" = None →
     sourceAlive now (JObj fields) lifespan = Raise KeyError).
Proof.
  intros look alive_at. unfold sourceAlive. simpl. rewrite existsb_find.
  fold (look "pushed_at"). fold (look "pushedAt"). repeat split.
  - intros kv ->. simpl. done.
  - intros kv -> ->. simpl. done.
  - intros -> ->. simpl. done.
Qed.

Lemma select_sublist {A} (keep : list bool) (l : list A) :
  select keep l `sublist_of` l.
Proof.
  revert l. induction keep as [|b keep IH]; intros [|x l]; simpl;
    try apply sublist_nil_l.
  destruct b; [by apply sublist_skip|by apply sublist_cons].
Qed.

Lemma select_sublist_select {A} (keep keep' : list bool) (l : list A) :
  length keep = length l → length keep' = length l →
  (∀ i, keep !! i = Some true → keep' !! i = Some true) →
  select keep l `sublist_of` select keep' l.
Proof.
  revert keep keep'.
  induction l as [|x l IH]; intros [|b keep] [|b' keep'] Hlen Hlen' Himp;
    simplify_eq/=; [done|].
  assert (select keep l `sublist_of` select keep' l) as Hrest.
  { apply IH; [done..|]. intros i. apply (Himp (S i)). }
  destruct b.
  - specialize (Himp 0%nat eq_refl). simplify_eq/=. by apply sublist_skip.
  - destruct b'; [by apply sublist_cons|done].
Qed.

(** A loop that returns has read every push time and found every window
    to fit. *)
Lemma aliveForks_loop_Ok now k repoData lifespan enableNewer forkedRepos
    aliveRepos out :
  aliveForks_loop now k repoData lifespan enableNewer forkedRepos aliveRepos
  = Ok out →
  forkedRepos = []
  ∨ (Forall (λ fork, ∃ x, pushedAt_of fork = Ok x ∧ window_fits x lifespan)
       forkedRepos
     ∧ is_Ok (pushedAt_of repoData)).
Proof.
  revert k aliveRepos.
  induction forkedRepos as [|fork rest IH]; intros k aliveRepos; [by left|].
  rewrite aliveForks_loop_cons. intros Hrun. right.
  destruct (pushedAt_of fork) as [x|] eqn:Hfork; simpl in *; [|done].
  destruct (alive_until x lifespan) as [until|] eqn:Huntil; simpl in *;
    [|done].
  apply alive_until_Ok in Huntil as [Hfits _].
  destruct (pushedAt_of repoData) as [s|] eqn:Hsrc; simpl in *; [|done].
  destruct (IH _ _ Hrun) as [->|[Hrest _]].
  - split; [|by eexists]. repeat constructor. by exists x.
  - split; [|by eexists]. constructor; [by exists x|done].
Qed.

Lemma getListOfAliveForks_inv now repoData lifespan enableNewer w w1 alive
    forkedRepos :
  getListOfAliveForks now repoData lifespan enableNewer w
  = (w1, Ok (alive, forkedRepos)) →
  ∃ fullName items,
    json_getitem repoData "full_name" = Ok (JStr fullName)
    ∧ getListOfRepos fullName "forks" w = (w1, Ok forkedRepos)
    ∧ json_iter forkedRepos = Ok items
    ∧ aliveForks_loop now 0 repoData lifespan enableNewer items [] = Ok alive.
Proof.
  unfold getListOfAliveForks. unfold bind at 1, lift at 1.
  destruct (json_getitem repoData "full_name") as [[| | |fullName| |]|];
    try done.
  unfold bind at 1.
  destruct (getListOfRepos fullName "forks" w) as [w2 [fetched|]] eqn:Hfetch;
    [|done].
  unfold bind, lift, ret.
  destruct (json_iter fetched) as [items|] eqn:Hitems; [|done].
  destruct (aliveForks_loop now 0 repoData lifespan enableNewer items [])
    as [out|] eqn:Hloop; [|done].
  intros [= -> -> ->]. by exists fullName, items.
Qed.

(** X14.  The result of the liveness filter only grows when it is asked
    for less: when the filter returns under a lifespan and returns under a
    lifespan at least as long, without requiring newer-ness where it was
    not required, it has fetched the same forks both times, and every fork
    kept under the shorter lifespan is kept under the longer one, in the
    same order; what is kept is always a part of the forks, which are
    returned beside it as they came. *)
Theorem getListOfAliveForks_monotone (now : nat → Z) (repoData : json)
    (lifespan lifespan' : Z) (enableNewer enableNewer' : bool)
    (w w1 w1' : world) (alive alive' : list json)
    (forkedRepos forkedRepos' : json) :
  lifespan ≤ lifespan' →
  (enableNewer' = true → enableNewer = true) →
  getListOfAliveForks now repoData lifespan enableNewer w
  = (w1, Ok (alive, forkedRepos)) →
  getListOfAliveForks now repoData lifespan' enableNewer' w
  = (w1', Ok (alive', forkedRepos')) →
  w1' = w1 ∧ forkedRepos' = forkedRepos
  ∧ alive `sublist_of` alive'
  ∧ ∃ items, json_iter forkedRepos = Ok items ∧ alive' `sublist_of` items.
Proof.
  intros Hlife Hnewer Hrun Hrun'.
  apply getListOfAliveForks_inv in Hrun
    as (fullName & items & Hname & Hfetch & Hitems & Hloop).
  apply getListOfAliveForks_inv in Hrun'
    as (fullName' & items' & Hname' & Hfetch' & Hitems' & Hloop').
  assert (fullName' = fullName) as -> by congruence.
  assert (w1' = w1 ∧ forkedRepos' = forkedRepos) as [-> ->]
    by (split; congruence).
  assert (items' = items) as -> by congruence.
  split; [done|]. split; [done|].
  destruct items as [|fork rest].
  { simpl in Hloop, Hloop'. injection Hloop as <-. injection Hloop' as <-.
    split; [done|]. by exists []. }
  destruct (aliveForks_loop_Ok _ _ _ _ _ _ _ _ Hloop)
    as [|[Hforks [sourceAt Hsrc]]]; [done|].
  destruct (aliveForks_loop_Ok _ _ _ _ _ _ _ _ Hloop')
    as [|[Hforks' _]]; [done|].
  set (at_ := λ fork, try_except (pushedAt_of fork) 0).
  assert (∀ f, f ∈ fork :: rest → pushedAt_of f = Ok (at_ f)) as Hat.
  { intros f Hf. rewrite Forall_forall in Hforks.
    destruct (Hforks f Hf) as (x & Hx & _). unfold at_. by rewrite Hx. }
  assert (∀ L, Forall (λ f, ∃ x, pushedAt_of f = Ok x ∧ window_fits x L)
                 (fork :: rest) →
               ∀ f, f ∈ fork :: rest → window_fits (at_ f) L) as Hfit.
  { intros L HL f Hf. rewrite Forall_forall in HL.
    destruct (HL f Hf) as (x & Hx & Hfits). unfold at_. by rewrite Hx. }
  destruct (aliveForks_loop_mask now at_ sourceAt repoData lifespan
              enableNewer (fork :: rest) Hat Hsrc (Hfit _ Hforks) 0%nat [])
    as (keep & Hlen & Hmask & Hkeep).
  destruct (aliveForks_loop_mask now at_ sourceAt repoData lifespan'
              enableNewer' (fork :: rest) Hat Hsrc (Hfit _ Hforks') 0%nat [])
    as (keep' & Hlen' & Hmask' & Hkeep').
  rewrite Hmask in Hloop. rewrite Hmask' in Hloop'.
  injection Hloop as <-. injection Hloop' as <-.
  split; [|exists (fork :: rest); split; [done|apply select_sublist]].
  apply select_sublist_select; [done..|].
  intros i Hi.
  destruct ((fork :: rest) !! i) as [f|] eqn:Hf.
  - apply (Hkeep' i f Hf). apply (Hkeep i f Hf) in Hi.
    unfold included, day_us in *.
    destruct Hi as [[? ?]|[? ?]].
    + left. split; [nia|done].
    + right. split; [nia|]. destruct enableNewer'; [|done].
      by rewrite Hnewer in *.
  - apply lookup_lt_Some in Hi. apply lookup_ge_None in Hf. lia.
Qed.

(** X15.  With the forks fetched as a list, the liveness filter returns
    exactly when there is no fork, or the push times of all the forks and
    of the source are well-formed and the window of every fork fits;
    without forks it returns the two empty lists and does not look at the
    source.  Nothing happens to the world after the fetch. *)
Theorem getListOfAliveForks_returns_iff (now : nat → Z) (repoData : json)
    (fullName : string) (forks : list json) (lifespan : Z)
    (enableNewer : bool) (w w1 : world) :
  json_getitem repoData "full_name" = Ok (JStr fullName) →
  getListOfRepos fullName "forks" w = (w1, Ok (JList forks)) →
  let run := getListOfAliveForks now repoData lifespan enableNewer w in
  fst run = w1
  ∧ (is_Ok (snd run)
     ↔ forks = []
       ∨ (Forall (λ fork, ∃ x, pushedAt_of fork = Ok x
                               ∧ window_fits x lifespan) forks
          ∧ is_Ok (pushedAt_of repoData)))
  ∧ (forks = [] → snd run = Ok ([], JList [])).
Proof.
  intros Hname Hfetch run. subst run.
  rewrite (getListOfAliveForks_fetched now repoData fullName forks lifespan
             enableNewer w w1 Hname Hfetch).
  cbn [fst snd]. split; [done|]. split; [|by intros ->].
  split.
  - intros [[alive fetched] Hrun].
    destruct (aliveForks_loop now 0 repoData lifespan enableNewer forks [])
      as [out|] eqn:Hloop; [|done].
    by eapply aliveForks_loop_Ok.
  - intros [->|[Hforks [sourceAt Hsrc]]]; [by eexists|].
    destruct (aliveForks_loop_mask now
                (λ fork, try_except (pushedAt_of fork) 0)
                sourceAt repoData lifespan enableNewer forks)
      with (k := 0%nat) (aliveRepos := @nil json)
      as (keep & _ & Hrun & _); [|done| |].
    + intros fork Hfork. rewrite Forall_forall in Hforks.
      destruct (Hforks fork Hfork) as (x & -> & _). done.
    + intros fork Hfork. rewrite Forall_forall in Hforks.
      destruct (Hforks fork Hfork) as (x & -> & Hfits). done.
    + rewrite Hrun. by eexists.
Qed.

End LivenessMore.

Section SearchMore.
Context `{Remote} `{LocalTime}.


End SearchMore.

(** ** The paginated list of the REPL *)

Section Paginated.
Import GitHubRepl.
Context {A : Type}.
Implicit Types (printFunc : A → result unit) (rest iterable : list A).

(** With a page limit the loop is the loop without one on the items below
    the limit. *)
Lemma paginated_loop_cut perPage totalPages maxpages printFunc index rest :
  0 < perPage → 0 ≤ index → maxpages ≠ 0 →
  paginated_loop perPage totalPages maxpages printFunc index rest
  = paginated_loop perPage totalPages 0 printFunc index
      (take (Z.to_nat (maxpages * perPage - index)) rest).
Proof.
  intros Hp Hi Hm. revert index Hi.
  induction rest as [|x rest IH]; intros index Hi.
  - by rewrite take_nil.
  - simpl. destruct (Z.eqb_spec maxpages 0) as [|_]; [done|]. simpl.
    destruct (Z.leb_spec maxpages (index / perPage)) as [Hle|Hlt].
    + assert (maxpages * perPage ≤ index) as Hcut.
      { pose proof (Z.mul_div_le index perPage Hp). nia. }
      by replace (Z.to_nat (maxpages * perPage - index)) with 0%nat by lia.
    + assert (index < maxpages * perPage) as Hcut.
      { apply Z.nle_gt. intros Hge.
        pose proof (Z.div_le_lower_bound index perPage maxpages Hp). lia. }
      replace (Z.to_nat (maxpages * perPage - index))
        with (S (Z.to_nat (maxpages * perPage - (index + 1)))) by lia.
      simpl. destruct (printFunc x); [|done].
      by rewrite IH by lia.
Qed.

Lemma paginated_loop_calls perPage totalPages printFunc index rest :
  (∀ x, x ∈ rest → printFunc x = Ok tt) →
  let run := paginated_loop perPage totalPages 0 printFunc index rest in
  calls_of (fst run) = rest ∧ snd run = Returned.
Proof.
  revert index. induction rest as [|x rest IH]; intros index Hok; [done|].
  simpl. rewrite (Hok x) by left.
  destruct (IH (index + 1)) as [Hcalls Hend].
  { intros y Hy. apply Hok. by right. }
  destruct (paginated_loop perPage totalPages 0 printFunc (index + 1) rest)
    as [events end_].
  simpl in *. split; [|done]. unfold calls_of. rewrite omap_app.
  destruct (_ && _); simpl; by rewrite <- Hcalls.
Qed.

Lemma div_pred_multiple i p :
  0 < p → i mod p = 0 → (i - 1) / p = i / p - 1.
Proof.
  intros Hp Hmod. symmetry. apply (Z.div_unique _ _ _ (p - 1)); [lia|].
  pose proof (Z.div_mod i p). lia.
Qed.

Lemma div_pred_not_multiple i p :
  0 < p → i mod p ≠ 0 → (i - 1) / p = i / p.
Proof.
  intros Hp Hmod. symmetry. apply (Z.div_unique _ _ _ (i mod p - 1)).
  - pose proof (Z.mod_pos_bound i p Hp). lia.
  - pose proof (Z.div_mod i p). lia.
Qed.

Lemma prompts_of_app (l1 l2 : list (event A)) :
  prompts_of (l1 ++ l2) = prompts_of l1 ++ prompts_of l2.
Proof. apply omap_app. Qed.

Lemma prompts_of_called (x : A) (events : list (event A)) :
  prompts_of (Called x :: events) = prompts_of events.
Proof. done. Qed.

(** The prompts of the loop from [index] on stand before the items whose
    index is a positive multiple of [perPage]. *)
Lemma paginated_loop_prompts perPage totalPages printFunc index rest :
  0 < perPage → 0 ≤ index →
  (∀ x, x ∈ rest → printFunc x = Ok tt) →
  prompts_of
    (fst (paginated_loop perPage totalPages 0 printFunc index rest))
  = (λ k, prompt_text k totalPages)
    <$> range ((Z.max index 1 - 1) / perPage + 1)
          ((index + Z.of_nat (length rest) - 1) / perPage + 1).
Proof.
  intros Hp. revert index. induction rest as [|x rest IH]; intros index Hi Hok.
  - simpl. rewrite range_nil; [done|].
    apply Z.add_le_mono_r, Z.div_le_mono; lia.
  - simpl. rewrite (Hok x) by left.
    specialize (IH (index + 1) ltac:(lia)
                  (λ y Hy, Hok y (list_elem_of_further _ _ _ Hy))).
    destruct (paginated_loop perPage totalPages 0 printFunc (index + 1) rest)
      as [events end_].
    cbn [fst] in *. rewrite prompts_of_app, prompts_of_called, IH.
    replace (Z.max (index + 1) 1 - 1) with index by lia.
    replace (index + 1 + Z.of_nat (length rest) - 1)
      with (index + Z.of_nat (length rest)) by lia.
    cbn [length].
    replace (index + Z.of_nat (S (length rest)) - 1)
      with (index + Z.of_nat (length rest)) by lia.
    assert (index / perPage
            ≤ (index + Z.of_nat (length rest)) / perPage) as Hmono.
    { apply Z.div_le_mono; lia. }
    destruct (Z.ltb_spec 0 index) as [Hpos|Hzero]; simpl.
    + replace (Z.max index 1) with index by lia.
      destruct (Z.eqb_spec (index mod perPage) 0) as [Hmod|Hmod]; simpl.
      * rewrite (div_pred_multiple index perPage) by done.
        replace (index / perPage - 1 + 1) with (index / perPage) by lia.
        by rewrite (range_cons (index / perPage)) by lia.
      * by rewrite (div_pred_not_multiple index perPage).
    + replace index with 0 by lia. simpl. by rewrite Z.div_0_l by lia.
Qed.

(** X17.  With a positive page size and a [printFunc] that does not raise,
    [paginatedList] calls [printFunc] on the items in order and returns:
    on all of them without a page limit, and with a limit of [maxpages]
    pages on the first [maxpages * perPage] of them and no other. *)
Theorem paginatedList_prints (iterable : list A) (perPage : Z)
    (printFunc : A → result unit) (maxpages : Z) :
  0 < perPage →
  (∀ x, x ∈ iterable → printFunc x = Ok tt) →
  let run := paginatedList iterable perPage printFunc maxpages in
  calls_of (fst run)
  = (if maxpages =? 0 then iterable
     else take (Z.to_nat (maxpages * perPage)) iterable)
  ∧ snd run = Returned.
Proof.
  intros Hp Hok. unfold paginatedList.
  destruct (Z.eqb_spec perPage 0) as [|_]; [lia|].
  destruct (Z.eqb_spec maxpages 0) as [->|Hm].
  - by apply paginated_loop_calls.
  - rewrite paginated_loop_cut by (done || lia).
    replace (maxpages * perPage - 0) with (maxpages * perPage) by lia.
    apply paginated_loop_calls.
    intros x Hx. apply Hok. by eapply subseteq_take.
Qed.

(** X18.  The prompts of a paginated list whose items are all shown (no
    page limit, positive page size): there is one for each page but the
    last, the [k]-th reads "Page k of T (Next)>" and stands after [k]
    pages of items, and the total [T] is [len // perPage + 1] whatever
    the remainder; so when the items fill their pages exactly, [T] counts
    one page more than there are. *)
Theorem paginatedList_prompts (iterable : list A) (perPage : Z)
    (printFunc : A → result unit) :
  0 < perPage →
  (∀ x, x ∈ iterable → printFunc x = Ok tt) →
  let len := Z.of_nat (length iterable) in
  let run := paginatedList iterable perPage printFunc 0 in
  prompts_of (fst run)
  = (λ k, prompt_text k (len / perPage + 1))
    <$> range 1 ((len - 1) / perPage + 1)
  ∧ (0 < len → len mod perPage = 0 →
     len / perPage + 1 = ((len - 1) / perPage + 1) + 1).
Proof.
  intros Hp Hok len run. split.
  - subst run. unfold paginatedList.
    destruct (Z.eqb_spec perPage 0) as [|_]; [lia|].
    rewrite paginated_loop_prompts by (done || lia).
    replace (Z.max 0 1 - 1) with 0 by lia.
    rewrite Z.div_0_l by lia. simpl. done.
  - intros Hlen Hmod. rewrite (div_pred_multiple len perPage) by done. lia.
Qed.



End Paginated.

(** ** The characters of a str *)

Fixpoint all_continuation (s : string) : bool :=
  match s with
  | EmptyString => true
  | String c s' => is_continuation c && all_continuation s'
  end.

Lemma chars_piece c t :
  all_continuation t = true → chars (String c t) = [String c t].
Proof.
  revert c. induction t as [|c' t IH]; intros c Ht; [done|].
  simpl in Ht. apply andb_true_iff in Ht as [Hc' Ht].
  change (chars (String c (String c' t)))
    with (match continues (String c' t), chars (String c' t) with
          | true, piece :: pieces => String c piece :: pieces
          | _, pieces => String c "" :: pieces
          end).
  rewrite (IH c' Ht). simpl. by rewrite Hc'.
Qed.

Lemma chars_head c s :
  ∃ t pieces,
    chars (String c s) = String c t :: pieces ∧ all_continuation t = true.
Proof.
  revert c. induction s as [|c' s IH]; intros c; [by exists "", []|].
  destruct (IH c') as (t & pieces & Hchars & Ht).
  change (chars (String c (String c' s)))
    with (match continues (String c' s), chars (String c' s) with
          | true, piece :: pieces => String c piece :: pieces
          | _, pieces => String c "" :: pieces
          end).
  rewrite Hchars. simpl. destruct (is_continuation c') eqn:Hc'.
  - exists (String c' t), pieces. split; [done|]. simpl. by rewrite Hc', Ht.
  - by exists "", (String c' t :: pieces).
Qed.

(** Every item that iterating over a str yields is a single character. *)
Lemma chars_single s : Forall (λ ch, chars ch = [ch]) (chars s).
Proof.
  induction s as [|c s IH]; [constructor|].
  destruct (chars_head c s) as (t & pieces & Hchars & Ht).
  rewrite Hchars. constructor; [by apply chars_piece|].
  destruct s as [|c' s]; [by injection Hchars as _ <-|].
  change (chars (String c (String c' s)))
    with (match continues (String c' s), chars (String c' s) with
          | true, piece :: pieces => String c piece :: pieces
          | _, pieces => String c "" :: pieces
          end) in Hchars.
  destruct (continues (String c' s)), (chars (String c' s)) as [|p ps];
    injection Hchars as _ <-; try done; by inversion IH.
Qed.

Lemma concat_cons (p : string) (l : list string) :
  String.concat "" (p :: l) = p +:+ String.concat "" l.
Proof.
  destruct l as [|q l]; simpl; [|done].
  induction p as [|c p IH]; [done|].
  change (String c p +:+ "") with (String c (p +:+ "")). by f_equal.
Qed.

(** The characters of a str, joined, are the str. *)
Lemma concat_chars s : String.concat "" (chars s) = s.
Proof.
  induction s as [|c s IH]; [done|].
  change (chars (String c s))
    with (match continues s, chars s with
          | true, piece :: pieces => String c piece :: pieces
          | _, pieces => String c "" :: pieces
          end).
  destruct (continues s), (chars s) as [|p ps];
    rewrite !concat_cons; rewrite ?concat_cons in IH; by subst s.
Qed.

(** X20.  Without the [mdv] module [printMarkdown] paginates the raw text
    itself: it prints it one character to a call, and under a limit of
    [maxpages] pages only its first [maxpages * 30] characters; without a
    limit the characters printed, joined, are the text. *)
Theorem printMarkdown_without_mdv (raw : string) (maxpages : Z) :
  let run := GitHubRepl.printMarkdown None raw maxpages in
  calls_of (fst run)
  = (if maxpages =? 0 then chars raw
     else take (Z.to_nat (maxpages * 30)) (chars raw))
  ∧ snd run = GitHubRepl.Returned
  ∧ Forall (λ ch, chars ch = [ch]) (calls_of (fst run))
  ∧ String.concat "" (chars raw) = raw.
Proof.
  intros run. subst run. unfold GitHubRepl.printMarkdown.
  assert (let run :=
            GitHubRepl.paginatedList (chars raw) 30 (λ _, Ok tt) maxpages in
          calls_of (fst run)
          = (if maxpages =? 0 then chars raw
             else take (Z.to_nat (maxpages * 30)) (chars raw))
          ∧ snd run = GitHubRepl.Returned) as [Hcalls Hend].
  { unfold GitHubRepl.paginatedList. change (30 =? 0) with false. cbv iota.
    destruct (Z.eqb_spec maxpages 0) as [->|Hm].
    - by apply paginated_loop_calls.
    - rewrite paginated_loop_cut by (done || lia).
      replace (maxpages * 30 - 0) with (maxpages * 30) by lia.
      by apply paginated_loop_calls. }
  split; [done|]. split; [done|]. split; [|apply concat_chars].
  rewrite Hcalls. pose proof (chars_single raw) as Hchars.
  destruct (maxpages =? 0); [done|]. by apply Forall_take.
Qed.

(** ** Page numbers and URLs *)

Lemma digit_of_pretty_N_char (d : N) :
  (d < 10)%N → digit_of (pretty_N_char d) = Some (Z.of_N d).
Proof.
  intros Hd.
  assert (d = 0 ∨ d = 1 ∨ d = 2 ∨ d = 3 ∨ d = 4 ∨ d = 5 ∨ d = 6 ∨ d = 7
          ∨ d = 8 ∨ d = 9)%N as Hcases by lia.
  repeat (destruct Hcases as [->|Hcases]; [done|]). by subst.
Qed.

Lemma digits_value_pretty_N_go (x : N) (s : string) :
  digits_value (pretty_N_go x s) 0 = digits_value s (Z.of_N x).
Proof.
  revert s. induction (N.lt_wf_0 x) as [x _ IH]; intros s.
  assert (x = 0 ∨ 0 < x)%N as [->|Hx] by lia; [done|].
  rewrite pretty_N_go_step by done.
  rewrite IH by (by apply N.div_lt).
  simpl. rewrite digit_of_pretty_N_char by (by apply N.mod_lt).
  f_equal. rewrite (N.div_mod x 10) at 3 by done. lia.
Qed.

Lemma token_of_digit c d :
  digit_of c = Some d →
  token_of (String c "") = TDigit d ∧ is_continuation c = false.
Proof.
  destruct c as [[] [] [] [] [] [] [] []]; intros Hd;
    try discriminate Hd; injection Hd as <-; done.
Qed.

Lemma numeral_digits s acc digits n :
  digits_value s acc = Some n →
  numeral (token_of <$> chars s) acc digits
  = Some (n, digits + Z.of_nat (String.length s), [])
  ∧ continues s = false.
Proof.
  revert acc digits. induction s as [|c s IH]; intros acc digits.
  - simpl. intros [= ->]. split; [|done]. do 3 f_equal. lia.
  - cbn [digits_value]. destruct (digit_of c) as [d|] eqn:Hd; [|done].
    intros Hrest.
    destruct (token_of_digit c d Hd) as [Htoken Hc].
    destruct (IH _ (digits + 1) Hrest) as [Hnum Hs]. split; [|done].
    cbn [chars]. rewrite Hs, fmap_cons, Htoken. cbn [numeral].
    rewrite Hnum. do 3 f_equal. cbn [String.length]. lia.
Qed.

(** A numeral of plain digits, with or without a minus sign: it is read
    when it has at most [max_str_digits] digits and refused otherwise. *)
Lemma int_digits c t n :
  digits_value (String c t) 0 = Some n →
  let fits := Z.of_nat (String.length (String c t)) <=? max_str_digits in
  int (String c t) = (if fits then Ok n else Raise ValueError)
  ∧ int (String "-" (String c t))
    = (if fits then Ok (- n) else Raise ValueError).
Proof.
  intros Hval fits. cbn [digits_value] in Hval.
  destruct (digit_of c) as [d|] eqn:Hd; [|done].
  destruct (token_of_digit c d Hd) as [Htoken Hc].
  destruct (numeral_digits t _ 1 _ Hval) as [Hnum Ht].
  assert (chars (String c t) = String c "" :: chars t) as Hchars.
  { cbn [chars]. by rewrite Ht. }
  assert (chars (String "-" (String c t)) = "-" :: String c "" :: chars t)
    as Hminus.
  { change (chars (String "-" (String c t)))
      with (match continues (String c t), chars (String c t) with
            | true, piece :: pieces => String "-" piece :: pieces
            | _, pieces => String "-" "" :: pieces
            end).
    rewrite Hchars. cbn [continues]. by rewrite Hc. }
  unfold int. rewrite Hminus, Hchars, !fmap_cons, Htoken.
  change (token_of "-") with TMinus. cbn [drop_spaces fst snd].
  replace (10 * 0 + d) with d in Hnum by lia. rewrite Hnum.
  cbn [drop_spaces]. subst fits. cbn [String.length].
  replace (Z.of_nat (S (String.length t)))
    with (1 + Z.of_nat (String.length t)) by lia.
  destruct (1 + Z.of_nat (String.length t) <=? max_str_digits);
    split; (done || (f_equal; lia)).
Qed.

Lemma pretty_N_go_length (k : nat) (x : N) (s : string) :
  (x < 10 ^ N.of_nat k)%N →
  (String.length (pretty_N_go x s) ≤ k + String.length s)%nat.
Proof.
  revert x s. induction k as [|k IH]; intros x s Hx.
  - assert (x = 0%N) as -> by (simpl in Hx; lia). rewrite pretty_N_go_0. lia.
  - destruct (decide (x = 0%N)) as [->|Hpos]; [rewrite pretty_N_go_0; lia|].
    rewrite pretty_N_go_step by lia.
    etrans; [apply IH|cbn [String.length]; lia].
    rewrite Nat2N.inj_succ, N.pow_succ_r' in Hx.
    apply N.Div0.div_lt_upper_bound. lia.
Qed.

Lemma pretty_N_go_longer (x : N) (s : string) :
  (String.length s ≤ String.length (pretty_N_go x s))%nat.
Proof.
  revert s. induction (N.lt_wf_0 x) as [x _ IH]; intros s.
  assert (x = 0 ∨ 0 < x)%N as [->|Hx] by lia; [by rewrite pretty_N_go_0|].
  rewrite pretty_N_go_step by done.
  etrans; [|apply IH; by apply N.div_lt]. cbn [String.length]. lia.
Qed.

Lemma pretty_N_go_length_ge (k : nat) (x : N) (s : string) :
  (10 ^ N.of_nat k ≤ x)%N →
  (k + 1 + String.length s ≤ String.length (pretty_N_go x s))%nat.
Proof.
  revert x s. induction k as [|k IH]; intros x s Hx.
  - rewrite pretty_N_go_step by (simpl in Hx; lia).
    etrans; [|apply pretty_N_go_longer]. cbn [String.length]. lia.
  - assert (0 < x)%N as Hpos.
    { pose proof (N.pow_nonzero 10 (N.of_nat (S k))). lia. }
    rewrite pretty_N_go_step by done.
    etrans; [|apply IH]; [cbn [String.length]; lia|].
    rewrite Nat2N.inj_succ, N.pow_succ_r' in Hx.
    apply N.div_le_lower_bound; lia.
Qed.

(** [int] undoes [str] on the integers of at most [max_str_digits] digits
    and refuses the decimal text of any other. *)
Lemma int_str (n : Z) :
  int (str n)
  = if Z.abs n <? 10 ^ max_str_digits then Ok n else Raise ValueError.
Proof.
  assert (∀ p : positive,
            ∃ c t, pretty_N_go (N.pos p) "" = String c t
                   ∧ digits_value (String c t) 0 = Some (Z.pos p)
                   ∧ (Z.of_nat (String.length (String c t)) <=? max_str_digits)
                     = (Z.pos p <? 10 ^ max_str_digits))
    as Hpos.
  { intros p.
    pose proof (digits_value_pretty_N_go (N.pos p) "") as Hval.
    pose proof (pretty_N_go_length (Z.to_nat max_str_digits) (N.pos p) "")
      as Hle.
    pose proof (pretty_N_go_length_ge (Z.to_nat max_str_digits) (N.pos p) "")
      as Hge.
    cbn [digits_value] in Hval.
    destruct (pretty_N_go (N.pos p) "") as [|c t]; [done|].
    exists c, t. split; [done|]. split; [done|].
    assert (Z.of_N (10 ^ N.of_nat (Z.to_nat max_str_digits))
            = 10 ^ max_str_digits) as Hpow.
    { by rewrite N2Z.inj_pow, nat_N_Z, Z2Nat.id. }
    cbn [String.length] in Hle, Hge |- *.
    destruct (Z.ltb_spec (Z.pos p) (10 ^ max_str_digits)) as [Hp|Hp].
    - apply Z.leb_le.
      assert (N.pos p < 10 ^ N.of_nat (Z.to_nat max_str_digits))%N as Hlt
        by lia.
      specialize (Hle Hlt). unfold max_str_digits in *. lia.
    - apply Z.leb_gt.
      assert (10 ^ N.of_nat (Z.to_nat max_str_digits) ≤ N.pos p)%N as Hlt
        by lia.
      specialize (Hge Hlt). unfold max_str_digits in *. lia. }
  unfold str, pretty, pretty_Z. destruct n as [|p|p]; [done|..].
  - destruct (Hpos p) as (c & t & Hstr & Hval & Hfits).
    unfold pretty, pretty_positive, pretty, pretty_N.
    rewrite decide_False by done. rewrite Hstr.
    rewrite (proj1 (int_digits c t _ Hval)), Hfits. done.
  - destruct (Hpos p) as (c & t & Hstr & Hval & Hfits).
    unfold pretty, pretty_positive, pretty, pretty_N.
    rewrite decide_False by done. rewrite Hstr.
    change ("-" +:+ String c t) with (String "-" (String c t)).
    rewrite (proj2 (int_digits c t _ Hval)), Hfits. done.
Qed.

Global Instance page_url_inj apiUrl : Inj (=) (=) (page_url apiUrl).
Proof.
  assert (∀ q, first_url apiUrl ≠ next_url apiUrl q) as Hfirst.
  { intros q Heq. unfold first_url, next_url in Heq.
    do 2 apply String.app_inj in Heq. done. }
  intros p q. unfold page_url.
  destruct (Z.eqb_spec p 1) as [->|Hp], (Z.eqb_spec q 1) as [->|Hq];
    [done|by intros ?%Hfirst|by intros ?%eq_sym%Hfirst|].
  unfold next_url. intros Heq. do 2 apply String.app_inj in Heq.
  apply (String.app_inj "?per_page=100&page=") in Heq.
  by apply (inj pretty) in Heq.
Qed.

Lemma take_range j a b :
  a ≤ b → take j (range a b) = range a (Z.min b (a + Z.of_nat j)).
Proof.
  intros Hab. unfold range. rewrite <- fmap_take, take_seq.
  do 2 f_equal. lia.
Qed.

Lemma NoDup_range a b : NoDup (range a b).
Proof.
  unfold range. apply NoDup_fmap_2; [|apply NoDup_seq].
  intros i j Hij. lia.
Qed.

Section PageOrder.
Context `{Remote} `{LocalTime}.

Lemma pages_loop_requests apiUrl pages acc w :
  ∃ k, requests (fst (for_each (extend_with_page apiUrl) pages acc w))
       = requests w ++ (next_url apiUrl <$> take k pages).
Proof.
  revert acc w. induction pages as [|p pages IH]; intros acc w; simpl.
  - exists 0%nat. by rewrite app_nil_r.
  - destruct (extend_with_page_effects apiUrl acc p w) as (Hreq & _).
    unfold bind.
    destruct (extend_with_page apiUrl acc p w) as [w1 [acc'|e]];
      simpl in Hreq.
    + destruct (IH acc' w1) as [k Hk]. exists (S k).
      rewrite Hk, Hreq, <- app_assoc. done.
    + exists 1%nat. simpl. by rewrite Hreq.
Qed.

(** X21.  However a paginated fetch goes, the pages it requests are the
    pages 1 to [k] for some [k] from 1 to 10, each once and in this order:
    no page is skipped, none is requested twice, and no two requests of a
    fetch go to the same URL. *)
Theorem getPaginatedGithubApiRequest_page_order (apiUrl : string)
    (w : world) :
  let run := getPaginatedGithubApiRequest apiUrl w in
  ∃ k, 1 ≤ k ≤ 10
       ∧ requests (fst run)
         = requests w ++ (page_url apiUrl <$> range 1 (k + 1))
       ∧ NoDup (page_url apiUrl <$> range 1 (k + 1)).
Proof.
  intros run.
  assert (∃ k, 1 ≤ k ≤ 10
               ∧ requests (fst run)
                 = requests w ++ (page_url apiUrl <$> range 1 (k + 1)))
    as (k & Hk & Hreq);
    [|exists k; repeat split; [lia..|done|];
      apply NoDup_fmap_2; [apply _|apply NoDup_range]].
  assert (run = getPaginatedGithubApiRequest apiUrl w) as Hrun by done.
  clearbody run. unfold getPaginatedGithubApiRequest in Hrun.
  destruct (getGithubApiRequest_effects (apiUrl +:+ "?per_page=100") false w)
    as (Hreq & _).
  unfold bind at 1 in Hrun.
  destruct (getGithubApiRequest _ false w) as [w1 [firstPage|e]];
    simpl in Hreq.
  2: { subst run. exists 1. split; [lia|]. simpl. by rewrite Hreq. }
  unfold bind at 1, lift at 1 in Hrun.
  destruct (value_json firstPage) as [iterable|e].
  2: { subst run. exists 1. split; [lia|]. simpl. by rewrite Hreq. }
  set (lastPage := try_except (lastPage_of firstPage) 1) in Hrun.
  set (w2 := if lastPage >? 10
             then World (log w1 ++ [truncation_warning]) (requests w1) (file w1)
             else w1).
  set (capped := if lastPage >? 10 then 10 else lastPage).
  assert (run = for_each (extend_with_page apiUrl) (range 2 (capped + 1))
                  iterable w2) as Hloop.
  { rewrite Hrun. unfold bind, logPrint, ret, capped, w2.
    by destruct (lastPage >? 10). }
  assert (capped ≤ 10) as Hcap.
  { unfold capped. destruct (Z.gtb_spec lastPage 10); lia. }
  assert (requests w2 = requests w ++ [first_url apiUrl]) as Hreq2.
  { unfold w2. by destruct (lastPage >? 10). }
  destruct (pages_loop_requests apiUrl (range 2 (capped + 1)) iterable w2)
    as [j Hj].
  rewrite <- Hloop, Hreq2 in Hj.
  destruct (Z.le_gt_cases capped 1) as [Hsmall|Hbig].
  - exists 1. split; [lia|]. rewrite Hj, range_nil by lia.
    rewrite take_nil. simpl. by rewrite app_nil_r.
  - rewrite take_range in Hj by lia.
    exists (Z.min (capped + 1) (2 + Z.of_nat j) - 1). split; [lia|].
    rewrite Hj, <- app_assoc. f_equal.
    replace (Z.min (capped + 1) (2 + Z.of_nat j) - 1 + 1)
      with (Z.min (capped + 1) (2 + Z.of_nat j)) by lia.
    rewrite (range_cons 1) by lia. simpl. f_equal.
    apply list_fmap_ext. intros i p Hp.
    apply list_elem_of_lookup_2, elem_of_range in Hp.
    unfold page_url. by destruct (Z.eqb_spec p 1); [lia|].
Qed.

(** X22.  The fetcher reads back the page number that a last link
    carries: when the part of the link after its first ["&page="] is the
    decimal text of [n], the reported last page is [n] if [n] has at most
    4300 digits, the most that [int] converts, and 1 otherwise; and so for
    [int] on [str]: it undoes it on every integer of at most 4300 digits
    and raises [ValueError] on the decimal text of any other. *)
Theorem reported_lastPage_reads_str (r : response) (rel : gmap string string)
    (url : string) (n : Z) :
  links r !! "last" = Some rel → rel !! "url" = Some url →
  split url "&page=" !! 1%nat = Some (str n) →
  reported_lastPage r = (if Z.abs n <? 10 ^ 4300 then n else 1)
  ∧ ∀ m, int (str m)
         = if Z.abs m <? 10 ^ 4300 then Ok m else Raise ValueError.
Proof.
  intros Hlast Hurl Hpage. split; [|apply int_str].
  unfold reported_lastPage, lastPage_of, getitem, getitem_nth. simpl.
  rewrite Hlast. simpl. rewrite Hurl. simpl. rewrite Hpage. simpl.
  rewrite int_str. unfold max_str_digits.
  by destruct (Z.abs n <? 10 ^ 4300).
Qed.

End PageOrder.

(** ** The report *)

Section ReportFacts.
Import UserReposTraffic.

(** The line of a tuple whose numbers can be printed. *)
Definition printed_line (e : scoreEntry) : logtext :=
  LText (entry_label e +:+ ": score=" +:+ str (entry_score e)
         +:+ " (" +:+ str (entry_forks e) +:+ ":" +:+ str (entry_stars e)
         +:+ ":" +:+ str (entry_clones e) +:+ ":" +:+ str (entry_views e)
         +:+ ")").

Lemma format_int_printable n : printable n → format_int n = Ok (str n).
Proof.
  unfold printable, format_int. intros Hn.
  by destruct (Z.ltb_spec (Z.abs n) (10 ^ max_str_digits)); [|lia].
Qed.

Lemma report_line_printable e :
  entry_printable e → report_line e = Ok (printed_line e).
Proof.
  intros (Hscore & Hforks & Hstars & Hclones & Hviews). unfold report_line.
  by rewrite !format_int_printable.
Qed.

Lemma print_loop (entries : list scoreEntry) w :
  Forall entry_printable entries →
  for_each (λ _ repoData,
              let* line := lift (report_line repoData) in
              logPrint line (Some "info"))
    entries tt w
  = (World
       (log w ++ ((λ e, LogLine (printed_line e) (Some "info")) <$> entries))
       (requests w) (file w),
     Ok tt).
Proof.
  intros Hentries. revert w.
  induction Hentries as [|e entries He _ IH]; intros w; simpl.
  - unfold ret. rewrite app_nil_r. by destruct w.
  - unfold bind at 1 2, lift. rewrite (report_line_printable e He).
    unfold logPrint at 1. rewrite IH. simpl. by rewrite <- app_assoc.
Qed.

(** X23.  The end of the script (lines 79 to 84) prints the ranking.  For
    every list of score tuples whose numbers can be printed it returns,
    having logged one info line per tuple and nothing else, made no request
    and left the ledger file alone; the lines stand in the order of
    [sortedRepos]: by score, highest first, the tuples of one score in the
    order in which the loop over the repositories appended them. *)
Theorem report_ranking (sortRepos : list scoreEntry) (w : world) :
  Forall entry_printable sortRepos →
  let printed :=
    (λ e, LogLine (printed_line e) (Some "info")) <$> sortedRepos sortRepos in
  report sortRepos w
  = (World (log w ++ printed) (requests w) (file w), Ok tt)
  ∧ length printed = length sortRepos
  ∧ Forall is_info printed
  ∧ StronglySorted (λ a b, entry_score b ≤ entry_score a)
      (sortedRepos sortRepos)
  ∧ ∀ s : Z,
      filter (λ e, entry_score e = s) (sortedRepos sortRepos)
      = filter (λ e, entry_score e = s) sortRepos.
Proof.
  intros Hprintable printed. split; [|split; [|split; [|split]]].
  - apply print_loop.
    eapply Forall_forall. intros e He. rewrite Forall_forall in Hprintable.
    apply Hprintable. unfold sortedRepos in He.
    by rewrite (sorted_reverse_perm getKey sortRepos) in He.
  - unfold printed, sortedRepos. rewrite length_fmap.
    apply Permutation_length, (sorted_reverse_perm getKey).
  - unfold printed. apply Forall_fmap, Forall_forall. by intros e _.
  - apply (sorted_reverse_descending getKey).
  - intros s. apply (sorted_reverse_stable getKey).
Qed.

End ReportFacts.

(** ** Printing a repository *)

Section PrintFacts.
Context `{Format}.

Lemma field_or_object fields key placeholder :
  is_Ok (field_or (JObj fields) key placeholder).
Proof.
  unfold field_or. simpl. rewrite existsb_find.
  destruct (find _ fields); by eexists.
Qed.

(** X24.  [printRepo] on an object: without an ["archived"] or without a
    ["name"] it prints nothing and returns.  With both, and a name that is
    a str, it prints the name in bold, marked as archived exactly when
    ["archived"] is true, then the line of details; whether it then
    prints the link and returns or raises [KeyError] depends on
    ["html_url"] alone: a description, language, license or date that
    is missing, or a license that is [null], never makes it raise. *)
Theorem printRepo_lines (fields : list (string * json)) (w : world) :
  let look key := find (λ kv : string * json, String.eqb (fst kv) key) fields in
  let run := printRepo (JObj fields) w in
  (look "archived" = None ∨ look "name" = None → run = (w, Ok tt))
  ∧ (∀ a k n,
       look "archived" = Some a → look "name" = Some (k, JStr n) →
       ∃ details,
         let title :=
           LogLine (LText ((if truthy (snd a) then archived_mark else "") +:+ n))
             (Some "bold") in
         (look "html_url" = None →
          snd run = Raise KeyError ∧ log (fst run) = log w ++ [title; details])
         ∧ (∀ u, look "html_url" = Some u →
              snd run = Ok tt
              ∧ log (fst run)
                = log w ++ [title; details;
                            LogLine (LText ("Link: " +:+ format (snd u)))
                              None])).
Proof.
  intros look run. subst run. unfold printRepo. split.
  - intros Hmissing. unfold bind, lift, ret. simpl. rewrite !existsb_find.
    fold (look "archived"). fold (look "name").
    destruct Hmissing as [->| ->]; [done|].
    by destruct (look "archived").
  - intros a k n Harchived Hname.
    destruct (field_or_object fields "description" "[description]")
      as [description Hd].
    destruct (field_or_object fields "language" "[unknown]") as [language Hl].
    destruct (field_or_object fields "updated_at" "[unknown]")
      as [updated Hu].
    eexists. cbv zeta.
    unfold bind, lift, ret, logPrint. simpl. rewrite !existsb_find.
    fold (look "archived"). fold (look "name"). fold (look "html_url").
    rewrite Harchived, Hname. simpl. rewrite Hd, Hl, Hu. simpl.
    split.
    + intros ->. simpl. split; [done|]. rewrite <- app_assoc. reflexivity.
    + intros u ->. simpl. split; [done|]. by rewrite <- !app_assoc.
Qed.

End PrintFacts.

(** ** The further theorems at concrete inputs *)

Lemma merges_never_stuck_witness :
  @ledger_written Iso.utils_iso
    (file (@run_merges Iso.utils_iso
             [MergeCall (Ok [Fixtures.may1; Fixtures.may2])
                "octo/source" "clones";
              MergeCall (Raise KeyError) "octo/source" "views"]
             Fixtures.fresh_world)).
Proof.
  apply (@merges_never_stuck Iso.utils_iso).
  - eexists. vm_compute. reflexivity.
  - intros r k s Hs. discriminate Hs.
Defined.

Lemma mergeDataWithJson_ascending_days_witness :
  stored
    (file (fst (@mergeDataWithJson Iso.utils_iso
                  (Ok [Fixtures.may1; Fixtures.may2])
                  "octo/source" "clones" Fixtures.one_repo_world)))
    "octo/source" "clones"
  = Some [sentinel; Fixtures.may1; Fixtures.may2].
Proof.
  destruct (@mergeDataWithJson_ascending_days Iso.utils_iso
              [Fixtures.may1; Fixtures.may2] "octo/source" "clones"
              Fixtures.one_repo_world Fixtures.may1 1714521600000000)
    as [_ Hstored].
  - vm_compute. reflexivity.
  - vm_compute. reflexivity.
  - repeat constructor; eexists; vm_compute; reflexivity.
  - repeat constructor.
    exists 1714521600000000, 1714608000000000.
    repeat split; vm_compute; reflexivity.
  - rewrite Hstored. vm_compute. reflexivity.
Defined.

Lemma mergeDataWithJson_total_witness :
  ∃ app,
    getJsonData "octo/source" "clones"
      (fst (@mergeDataWithJson Iso.utils_iso
              (Ok [Fixtures.may1; Fixtures.may2])
              "octo/source" "clones" Fixtures.fresh_world))
    = (fst (@mergeDataWithJson Iso.utils_iso
              (Ok [Fixtures.may1; Fixtures.may2])
              "octo/source" "clones" Fixtures.fresh_world),
       Ok (0 + total_uniques app))
    ∧ app `sublist_of` [Fixtures.may1; Fixtures.may2].
Proof.
  destruct (@mergeDataWithJson_total Iso.utils_iso
              [Fixtures.may1; Fixtures.may2] "octo/source" "clones"
              Fixtures.fresh_world)
    as (app & Hsub & _ & Htotal).
  - vm_compute. reflexivity.
  - exists app. split; [exact Htotal|exact Hsub].
Defined.

Lemma getGithubApiRequest_one_request_witness :
  snd (@getGithubApiRequest Fixtures.not_found Fixtures.local_time
         "repos/octo/none" true Fixtures.fresh_world)
  = Ok (AJson Fixtures.not_found_payload).
Proof.
  apply (@getGithubApiRequest_one_request Fixtures.not_found
           Fixtures.local_time "repos/octo/none" true Fixtures.fresh_world).
  - split; [|reflexivity].
    exists "4999", 4999. split; [reflexivity|]. split; [reflexivity|lia].
  - reflexivity.
Defined.




Lemma sourceAlive_monotone_witness :
  @sourceAlive Iso.utils_iso 1709251100000000 Fixtures.graph_repo 52 = Ok true
  ∧ (@sourceAlive Iso.utils_iso 1709251100000000 Fixtures.graph_repo 53
     = Ok true
     ∨ @sourceAlive Iso.utils_iso 1709251100000000 Fixtures.graph_repo 53
       = Raise OverflowError).
Proof.
  apply (@sourceAlive_monotone Iso.utils_iso 1709251200000000
           1709251100000000 Fixtures.graph_repo 52 53).
  - lia.
  - lia.
  - vm_compute. reflexivity.
Defined.

Lemma sourceAlive_keys_witness :
  @sourceAlive Iso.utils_iso 1709251200000000 (JObj Fixtures.archived_repo) 52
  = Raise KeyError.
Proof.
  apply (@sourceAlive_keys Iso.utils_iso 1709251200000000
           Fixtures.archived_repo 52); reflexivity.
Defined.

Lemma getListOfAliveForks_monotone_witness :
  [Fixtures.fork_a] `sublist_of` [Fixtures.fork_a; Fixtures.fork_b].
Proof.
  destruct (@getListOfAliveForks_monotone Iso.utils_iso Fixtures.forks_remote
              Fixtures.local_time Fixtures.clock Fixtures.source_json 52 60
              true false Fixtures.fresh_world
              (World []
                 ["https://api.github.com/repos/octo/source/forks?per_page=100"]
                 None)
              (World []
                 ["https://api.github.com/repos/octo/source/forks?per_page=100"]
                 None)
              [Fixtures.fork_a] [Fixtures.fork_a; Fixtures.fork_b]
              (JList [Fixtures.fork_a; Fixtures.fork_b])
              (JList [Fixtures.fork_a; Fixtures.fork_b]))
    as (_ & _ & Hsub & _).
  - lia.
  - intros Heq. discriminate Heq.
  - vm_compute. reflexivity.
  - vm_compute. reflexivity.
  - exact Hsub.
Defined.

Lemma getListOfAliveForks_returns_iff_witness :
  is_Ok (snd (@getListOfAliveForks Iso.utils_iso Fixtures.forks_remote
                Fixtures.local_time Fixtures.clock Fixtures.source_json 52
                true Fixtures.fresh_world)).
Proof.
  destruct (@getListOfAliveForks_returns_iff Iso.utils_iso
              Fixtures.forks_remote Fixtures.local_time Fixtures.clock
              Fixtures.source_json "octo/source"
              [Fixtures.fork_a; Fixtures.fork_b] 52 true Fixtures.fresh_world
              (World []
                 ["https://api.github.com/repos/octo/source/forks?per_page=100"]
                 None))
    as (_ & Hiff & _).
  - reflexivity.
  - vm_compute. reflexivity.
  - apply Hiff. right. split; [|eexists; vm_compute; reflexivity].
    repeat constructor; eexists;
      (split; [vm_compute; reflexivity|repeat split; vm_compute; discriminate]).
Defined.


Lemma paginatedList_prints_witness :
  calls_of (fst (GitHubRepl.paginatedList [1; 2; 3; 4; 5] 2
                   (λ _ : Z, Ok tt) 1))
  = [1; 2].
Proof.
  destruct (paginatedList_prints [1; 2; 3; 4; 5] 2 (λ _ : Z, Ok tt) 1)
    as [Hcalls _].
  - lia.
  - done.
  - exact Hcalls.
Defined.

Lemma paginatedList_prompts_witness :
  prompts_of (fst (GitHubRepl.paginatedList [1; 2; 3; 4] 2
                     (λ _ : Z, Ok tt) 0))
  = ["Page 1 of 3 (Next)>"].
Proof.
  destruct (paginatedList_prompts [1; 2; 3; 4] 2 (λ _ : Z, Ok tt))
    as [Hprompts _].
  - lia.
  - done.
  - rewrite Hprompts. vm_compute. reflexivity.
Defined.


Lemma reported_lastPage_reads_str_witness :
  reported_lastPage (@http_get (Fixtures.listing 15) "anything") = 15.
Proof.
  apply (reported_lastPage_reads_str
           (@http_get (Fixtures.listing 15) "anything")
           {[ "url" :=
                "https://api.github.com/users/octocat/repos?per_page=100&page=15" ]}
           "https://api.github.com/users/octocat/repos?per_page=100&page=15"
           15); reflexivity.
Defined.

Lemma report_ranking_witness :
  snd (report [ScoreEntry 5 "octo/a" 0 1 0 1; ScoreEntry 9 "octo/b" 1 0 0 1;
               ScoreEntry 5 "octo/c" 0 0 2 1] Fixtures.fresh_world)
  = Ok tt
  ∧ log (fst (report [ScoreEntry 5 "octo/a" 0 1 0 1;
                      ScoreEntry 9 "octo/b" 1 0 0 1;
                      ScoreEntry 5 "octo/c" 0 0 2 1] Fixtures.fresh_world))
    = [LogLine (LText "octo/b: score=9 (1:0:0:1)") (Some "info");
       LogLine (LText "octo/a: score=5 (0:1:0:1)") (Some "info");
       LogLine (LText "octo/c: score=5 (0:0:2:1)") (Some "info")].
Proof.
  destruct (report_ranking
              [ScoreEntry 5 "octo/a" 0 1 0 1; ScoreEntry 9 "octo/b" 1 0 0 1;
               ScoreEntry 5 "octo/c" 0 0 2 1] Fixtures.fresh_world)
    as (Hrun & _).
  - repeat constructor; vm_compute; reflexivity.
  - rewrite Hrun. split; vm_compute; reflexivity.
Defined.

Lemma printRepo_lines_witness :
  let run :=
    @printRepo Fixtures.plain_format (JObj Fixtures.archived_repo)
      Fixtures.fresh_world in
  snd run = Ok tt ∧ length (log (fst run)) = 3%nat.
Proof.
  intros run.
  destruct (proj2 (@printRepo_lines Fixtures.plain_format
                     Fixtures.archived_repo Fixtures.fresh_world)
              ("archived", JBool true) "name" "source" eq_refl eq_refl)
    as (details & _ & Hlink).
  destruct (Hlink ("html_url", JStr "https://github.com/octo/source") eq_refl)
    as [Hend Hlog].
  fold run in Hend, Hlog. split; [exact Hend|]. by rewrite Hlog.
Defined.
